(** * Manuscript history and progress tracking: a shallow embedding

    This development embeds the parts of
    [packages/core/src/git/manuscriptGit.ts] (class [ManuscriptGitService])
    that compute word counts, encode them into commit messages, decode them
    back, build the word-count history, render the progress chart, and drive
    the backup / restore workflow on top of the version-control engine.

    Conventions of the embedding:
    - a JavaScript string is the list of its UTF-16 code units ([list N]);
    - a JavaScript number that the code only ever uses as an integer is a
      [Z] (array lengths are [nat]), which is exact for the safe integers;
      the few places where the code leaves the integers ([50 / maxWords],
      [Math.round]) use [jsnum] below;
    - an [async] method is a function in the monad [M]: it threads the
      repository and may raise one of the engine's errors. *)

From Stdlib Require Import ZArith NArith QArith Qround List String Ascii Lia.
From Stdlib Require Import DecimalN.
From stdpp Require Import gmap list.

Open Scope Z_scope.

(** ** JavaScript strings *)

Module JsString.

(** Code units of an ASCII literal. *)
Fixpoint js (s : string) : list N :=
  match s with
  | EmptyString => []
  | String a s' => N_of_ascii a :: js s'
  end.

(** [\d] *)
Definition is_digit (c : N) : bool := (48 <=? c)%N && (c <=? 57)%N.

(** [\s]: the ECMAScript WhiteSpace and LineTerminator code units. *)
Definition is_space (c : N) : bool :=
  ((9 <=? c)%N && (c <=? 13)%N)
  || (c =? 32)%N || (c =? 160)%N || (c =? 5760)%N
  || ((8192 <=? c)%N && (c <=? 8202)%N)
  || (c =? 8232)%N || (c =? 8233)%N || (c =? 8239)%N
  || (c =? 8287)%N || (c =? 12288)%N || (c =? 65279)%N.

(** [s.split(/\s+/)]: the pieces of [s] between maximal runs of white
    space.  The piece before a leading run and the piece after a trailing
    run are empty strings, and the empty string splits into one empty
    piece.  [in_sep] records that the scan is inside a run, [cur] is the
    piece being read. *)
Fixpoint split_ws_go (in_sep : bool) (cur : list N) (s : list N)
  : list (list N) :=
  match s with
  | [] => [cur]
  | c :: s' =>
      if is_space c
      then (if in_sep then split_ws_go true [] s'
            else cur :: split_ws_go true [] s')
      else split_ws_go false (cur ++ [c]) s'
  end.

Definition split_ws (s : list N) : list (list N) := split_ws_go false [] s.

(** [s.split(c)] for a separator of one code unit. *)
Fixpoint split_chr_go (sep : N) (cur : list N) (s : list N)
  : list (list N) :=
  match s with
  | [] => [cur]
  | c :: s' =>
      if (c =? sep)%N then cur :: split_chr_go sep [] s'
      else split_chr_go sep (cur ++ [c]) s'
  end.

Definition split_chr (sep : N) (s : list N) : list (list N) :=
  split_chr_go sep [] s.

(** [s.endsWith(suf)] *)
Definition endsWith (s suf : list N) : bool :=
  bool_decide (drop (length s - length suf) s = suf).

(** [x.repeat(n)] for a count that is already a natural number. *)
Fixpoint repeat_str (x : list N) (n : nat) : list N :=
  match n with
  | O => []
  | S n' => x ++ repeat_str x n'
  end.

(** Decimal digits of a natural number, as code units. *)
Fixpoint uint_units (d : Decimal.uint) : list N :=
  match d with
  | Decimal.Nil => []
  | Decimal.D0 d' => 48%N :: uint_units d'
  | Decimal.D1 d' => 49%N :: uint_units d'
  | Decimal.D2 d' => 50%N :: uint_units d'
  | Decimal.D3 d' => 51%N :: uint_units d'
  | Decimal.D4 d' => 52%N :: uint_units d'
  | Decimal.D5 d' => 53%N :: uint_units d'
  | Decimal.D6 d' => 54%N :: uint_units d'
  | Decimal.D7 d' => 55%N :: uint_units d'
  | Decimal.D8 d' => 56%N :: uint_units d'
  | Decimal.D9 d' => 57%N :: uint_units d'
  end.

Definition digits (n : N) : list N := uint_units (N.to_uint n).

(** [`${z}`] for an integer [z], in decimal notation.  This is what
    JavaScript prints for a safe integer ([|z| < 2^53]), which every count
    that the service computes is; above that bound numbers are doubles and
    from 10^21 on they are printed in exponent notation, so statements
    about the digits of a number that is not computed carry the bound. *)
Definition show_Z (z : Z) : list N :=
  if z <? 0 then 45%N :: digits (Z.to_N (- z)) else digits (Z.to_N z).

(** [parseInt(ds, 10)] on a string of decimal digits (the only strings the
    code passes to it are captures of [\d+]).  The value is the exact
    integer, which is the number JavaScript returns when it is below 2^53
    (above, JavaScript returns the nearest double); statements about a
    decoded count carry that bound. *)
Definition parseInt10 (ds : list N) : Z :=
  Z.of_N (fold_left (fun acc c => (10 * acc + (c - 48))%N) ds 0%N).

(** The safe integers of JavaScript, on the non-negative side. *)
Definition safe_count (n : Z) : Prop := 0 <= n < 2 ^ 53.

(** [s.trim()] *)
Fixpoint trim_start (s : list N) : list N :=
  match s with
  | c :: s' => if is_space c then trim_start s' else s
  | [] => []
  end.

Definition trim (s : list N) : list N :=
  rev (trim_start (rev (trim_start s))).

(** [s.trimEnd()] *)
Definition trim_end (s : list N) : list N := rev (trim_start (rev s)).

(** [s.split(sep)] for a non-empty separator string.  [skipping] counts
    the code units of a separator that has just been recognised and is
    still to be passed over. *)
Fixpoint split_str_go (sep : list N) (skipping : nat) (cur : list N)
    (s : list N) : list (list N) :=
  match s with
  | [] => [cur]
  | c :: s' =>
      match skipping with
      | S k => split_str_go sep k cur s'
      | O =>
          if bool_decide (take (length sep) s = sep)
          then cur :: split_str_go sep (length sep - 1) [] s'
          else split_str_go sep O (cur ++ [c]) s'
      end
  end.

Definition split_str (sep : list N) (s : list N) : list (list N) :=
  split_str_go sep O [] s.

(** [pieces.join(sep)] *)
Fixpoint join_str (sep : list N) (pieces : list (list N)) : list N :=
  match pieces with
  | [] => []
  | [x] => x
  | x :: rest => x ++ sep ++ join_str sep rest
  end.

End JsString.

Import JsString.

(** ** Word-count extractor *)

(** [content.split(/\s+/).filter(word => word.length > 0).length], the body
    of [getWordCount] once the file has been read. *)
Definition countWords (content : list N) : nat :=
  length (filter (fun word => (0 < length word)%nat) (split_ws content)).

(** The count as the specification words it: the number of maximal runs of
    non-white-space code units.  [after_space] holds at the start of the
    text and after a white-space code unit. *)
Fixpoint count_tokens_go (after_space : bool) (s : list N) : nat :=
  match s with
  | [] => O
  | c :: s' =>
      if is_space c then count_tokens_go true s'
      else ((if after_space then 1 else 0) + count_tokens_go false s')%nat
  end.

Definition count_tokens (s : list N) : nat := count_tokens_go true s.

(** ** Commit-message codec *)

(** The fragment of regular expressions that the decoding pattern uses.
    Quantifiers are greedy and backtracking, as in ECMAScript; the pattern
    has one capturing group. *)
Inductive regex : Type :=
| Eps                         (* the empty pattern *)
| Lit (c : N)                 (* a literal code unit *)
| PlusCls (p : N -> bool)     (* [\d+], [\s+]: one or more of a class *)
| Opt (r : regex)             (* [r?] *)
| Cat (r1 r2 : regex)         (* [r1 r2] *)
| Grp (r : regex).            (* [(r)], the capturing group *)

(** Greedy iteration of a class: the longest run first, then shorter ones
    if the continuation [k] fails. *)
Fixpoint star {R : Type} (p : N -> bool) (s : list N)
    (k : list N -> option R) : option R :=
  match s with
  | c :: s' =>
      if p c
      then match star p s' k with
           | Some res => Some res
           | None => k s
           end
      else k s
  | [] => k []
  end.

(** Backtracking matcher in continuation-passing style: [rmatch r s cap k]
    matches [r] at the front of [s] and hands the rest of the input and the
    capture to [k]. *)
Fixpoint rmatch {R : Type} (r : regex) (s : list N) (cap : option (list N))
    (k : list N -> option (list N) -> option R) : option R :=
  match r with
  | Eps => k s cap
  | Lit c =>
      match s with
      | x :: s' => if (x =? c)%N then k s' cap else None
      | [] => None
      end
  | PlusCls p =>
      match s with
      | x :: s' => if p x then star p s' (fun s'' => k s'' cap) else None
      | [] => None
      end
  | Opt r' =>
      match rmatch r' s cap k with
      | Some res => Some res
      | None => k s cap
      end
  | Cat r1 r2 => rmatch r1 s cap (fun s' cap' => rmatch r2 s' cap' k)
  | Grp r' =>
      rmatch r' s cap
        (fun s' _ => k s' (Some (take (length s - length s') s)))
  end.

(** A run of literal code units. *)
Fixpoint lits (l : list N) : regex :=
  match l with
  | [] => Eps
  | c :: l' => Cat (Lit c) (lits l')
  end.

(** [/\((\d+)\s+(?:total\s+)?words?\)/] *)
Definition wordCountPattern : regex :=
  Cat (Lit 40)
  (Cat (Grp (PlusCls is_digit))
  (Cat (PlusCls is_space)
  (Cat (Opt (Cat (lits (js "total")) (PlusCls is_space)))
  (Cat (lits (js "word"))
  (Cat (Opt (Lit 115))
       (Lit 41)))))).

(** A match of the pattern that starts at the front of [s]: the text of
    group 1. *)
Definition match_here (s : list N) : option (list N) :=
  rmatch wordCountPattern s None (fun _ cap => cap).

(** [message.match(re)] (no [g] flag): the leftmost position at which the
    pattern matches; the result is [match[1]]. *)
Fixpoint re_search (s : list N) : option (list N) :=
  match match_here s with
  | Some cap => Some cap
  | None =>
      match s with
      | [] => None
      | _ :: s' => re_search s'
      end
  end.

(** [extractWordCountFromMessage]: [undefined] is [None]. *)
Definition extractWordCountFromMessage (message : list N) : option Z :=
  match re_search message with
  | Some ds => Some (parseInt10 ds)
  | None => None
  end.

(** The two encodings: [`${message} (${n} words)`] is the shape of the
    default message of [commitChapter], and
    [`${message} (${n} total words)`] is the message of [commitAll]. *)
Definition encode_words (message : list N) (n : Z) : list N :=
  message ++ js " (" ++ show_Z n ++ js " words)".

Definition encode_total_words (message : list N) (n : Z) : list N :=
  message ++ js " (" ++ show_Z n ++ js " total words)".

(** ** Errors and the service monad *)

(** What can be thrown on the paths modelled here: the engine's errors,
    which the service never catches, and the two JavaScript exceptions the
    history and chart code can raise. *)
Inductive error : Type :=
| PathspecNoMatch (name : list N) (* the name matches nothing the engine knows *)
| TagExists (name : list N)
| BranchExists (name : list N)
| NoHeadCommit                    (* HEAD does not resolve to a commit *)
| LocalChanges                    (* checkout would overwrite local changes *)
| TypeError
| RangeError.

Inductive result (A : Type) : Type :=
| Ok (a : A)
| Err (e : error).
Arguments Ok {A} a.
Arguments Err {A} e.

(** ** Word-count history *)

Record HistoryEntry : Type := mkEntry {
  h_date : list N;
  h_wordCount : Z;
  h_change : Z
}.

(** [x || 0] for the result of [extractWordCountFromMessage]. *)
Definition count_or_zero (x : option Z) : Z :=
  match x with
  | Some n => if n =? 0 then 0 else n
  | None => 0
  end.

(** The loop of [getWordCountHistory].  Each element of [commits] is the
    [hash] field of a log entry, which holds the line [%h|%ai|%s].  When the
    line has fewer than three fields, [message] is [undefined] and
    [message.match] throws. *)
Fixpoint history_loop (commits : list (list N)) (previousCount : Z)
    (history : list HistoryEntry) : result (list HistoryEntry) :=
  match commits with
  | [] => Ok history
  | commit :: rest =>
      match split_chr 124 commit with
      | _hash :: date :: message :: _ =>
          let wordCount := count_or_zero (extractWordCountFromMessage message) in
          history_loop rest wordCount
            (history ++ [mkEntry (hd [] (split_chr 32 date)) wordCount
                                 (wordCount - previousCount)])
      | _ => Err TypeError
      end
  end.

(** [getWordCountHistory], as a function of [log.all], the entries the
    engine returned for the window (newest first, the order of [git log]). *)
Definition getWordCountHistory (log_all : list (list N))
  : result (list HistoryEntry) :=
  history_loop (rev log_all) 0 [].

(** ** Progress chart *)

(** The numbers of the chart and diff computations.  Finite values are
    kept as exact rationals: the rounding of a quotient or of a product to
    a double is not modelled, so nothing is stated below that depends on
    it (such as the length of a bar).  What is stated rests on the special
    values and the signs, which follow IEEE 754, and on quotients by 5,
    whose nearest integer the rounding does not change. *)
Inductive jsnum : Type :=
| Fin (q : Q)
| PosInf
| NegInf
| NaN.

(** [a / b] for integers [a] and [b] (a zero divisor is [+0]). *)
Definition js_div (a b : Z) : jsnum :=
  if b =? 0
  then (if 0 <? a then PosInf else if a <? 0 then NegInf else NaN)
  else Fin (inject_Z a / inject_Z b)%Q.

(** [a * x] for an integer [a]. *)
Definition js_mul (a : Z) (x : jsnum) : jsnum :=
  match x with
  | Fin q => Fin (inject_Z a * q)%Q
  | PosInf => if 0 <? a then PosInf else if a <? 0 then NegInf else NaN
  | NegInf => if 0 <? a then NegInf else if a <? 0 then PosInf else NaN
  | NaN => NaN
  end.

(** [Math.round] *)
Definition js_round (x : jsnum) : jsnum :=
  match x with
  | Fin q => Fin (inject_Z (Qfloor (q + (1 # 2))%Q))
  | _ => x
  end.

(** [x.repeat(count)]: the count is first made an integer ([NaN] becomes
    0); a negative or infinite count throws a [RangeError]. *)
Definition js_repeat (x : list N) (count : jsnum) : result (list N) :=
  match count with
  | NaN => Ok []
  | PosInf | NegInf => Err RangeError
  | Fin q =>
      let n := Z.quot (Qnum q) (Z.pos (Qden q)) in
      if n <? 0 then Err RangeError else Ok (repeat_str x (Z.to_nat n))
  end.

(** [Math.max(...xs)] for a non-empty argument list [x :: xs]. *)
Definition max_of (x : Z) (xs : list Z) : Z := fold_left Z.max xs x.

(** The bar glyph, as the file has it. *)
Definition bar_glyph : list N := [226; 8211; 710]%N.

Definition chart_header : list N :=
  js "Writing Progress (Last 30 Days)" ++ [10%N]
  ++ repeat_str (js "=") 60 ++ [10%N].

(** One line of the chart, given the bar. *)
Definition chart_line (entry : HistoryEntry) (bar : list N) : list N :=
  let change :=
    if 0 <? h_change entry then js "+" ++ show_Z (h_change entry)
    else show_Z (h_change entry) in
  h_date entry ++ js " " ++ bar ++ js " " ++ show_Z (h_wordCount entry)
  ++ js " words (" ++ change ++ js ")" ++ [10%N].

(** The [for] loop of [visualizeProgress]. *)
Fixpoint chart_loop (scale : jsnum) (history : list HistoryEntry)
    (output : list N) : result (list N) :=
  match history with
  | [] => Ok output
  | entry :: rest =>
      let barLength := js_round (js_mul (h_wordCount entry) scale) in
      match js_repeat bar_glyph barLength with
      | Err e => Err e
      | Ok bar => chart_loop scale rest (output ++ chart_line entry bar)
      end
  end.

(** [visualizeProgress] after the history has been fetched. *)
Definition render (history : list HistoryEntry) : result (list N) :=
  match history with
  | [] => Ok (js "No writing history found.")
  | e :: es =>
      let maxWords := max_of (h_wordCount e) (map h_wordCount es) in
      let scale := js_div 50 maxWords in
      chart_loop scale history chart_header
  end.

(** [visualizeProgress], as a function of the log entries of the last 30
    days. *)
Definition visualizeProgress (log_all : list (list N)) : result (list N) :=
  match getWordCountHistory log_all with
  | Err e => Err e
  | Ok history => render history
  end.

(** ** The version-control engine

    The service talks to git through the [simple-git] handle [this.git].
    The model below is the part of the engine that the service's calls
    observe: the project files, the index, the commits, the branches and
    tags, and HEAD.  Its domain:
    - paths are normalised file paths relative to the project directory,
      and a directory exists through the files under it;
    - no project file matches an ignore rule ([git add .] and [git status]
      skip such files, which the model does not tell apart);
    - names given to [git tag] and [git checkout -b] are valid reference
      names (the engine refuses the others), so what the model says of a
      new tag or branch is said of a call that completes;
    - a name given to [git checkout] that is neither a branch nor a tag of
      the model is handed to a parameter, see [checkout];
    - remotes, merges and configuration are left out. *)

Module Git.

Inductive head_ref : Type :=
| OnBranch (b : list N)      (* HEAD is attached to a branch *)
| Detached (c : nat).        (* HEAD is detached at a commit *)

Record commit : Type := mkCommit {
  c_message : list N;
  c_tree : gmap (list N) (list N);
  c_parent : option nat
}.

Record repo : Type := mkRepo {
  files : gmap (list N) (list N);     (* the project directory *)
  index : gmap (list N) (list N);     (* the staging area *)
  objects : list commit;              (* commit [i] is [objects !! i] *)
  branches : gmap (list N) nat;
  tags : gmap (list N) nat;
  head : head_ref
}.

Definition head_commit (r : repo) : option nat :=
  match head r with
  | OnBranch b => branches r !! b
  | Detached c => Some c
  end.

Definition tree_at (r : repo) (c : option nat) : gmap (list N) (list N) :=
  match c with
  | Some i =>
      match objects r !! i with
      | Some ci => c_tree ci
      | None => ∅
      end
  | None => ∅
  end.

Definition head_tree (r : repo) : gmap (list N) (list N) :=
  tree_at r (head_commit r).

(** A path is unchanged when the project directory, the index and the
    HEAD commit agree on it. *)
Definition unchanged (r : repo) (p : list N) : Prop :=
  files r !! p = index r !! p ∧ index r !! p = head_tree r !! p.

(** [status.files.map(f => f.path)]: the paths with staged, unstaged or
    untracked changes (of a project without ignored files). *)
Definition status_files (r : repo) : list (list N) :=
  filter (fun p => ¬ unchanged r p)
    (elements (dom (files r) ∪ dom (index r) ∪ dom (head_tree r))).

(** The working tree is clean when [git status] lists no file. *)
Definition clean (r : repo) : Prop :=
  files r = index r ∧ index r = head_tree r.

Definition set_index (r : repo) (i : gmap (list N) (list N)) : repo :=
  mkRepo (files r) i (objects r) (branches r) (tags r) (head r).

(** Path [q] lies under the directory [p]. *)
Definition under (p q : list N) : bool :=
  bool_decide ((p ++ [47%N]) `prefix_of` q).


(** [git add <path>] for a plain path: stage the file's content, or its
    deletion when the path is tracked but gone from disk; for a directory,
    stage what is under it (the files on disk, and the deletion of tracked
    files that are gone); a path that is neither on disk nor in the index
    and has nothing under it matches nothing. *)
Definition add (p : list N) (r : repo) : result unit * repo :=
  match files r !! p with
  | Some content => (Ok (), set_index r (<[p := content]> (index r)))
  | None =>
      match index r !! p with
      | Some _ => (Ok (), set_index r (delete p (index r)))
      | None =>
          let on_disk := filter (fun kv => under p kv.1 = true) (files r) in
          let tracked := filter (fun kv => under p kv.1 = true) (index r) in
          if decide (on_disk = ∅ ∧ tracked = ∅)
          then (Err (PathspecNoMatch p), r)
          else (Ok (),
                set_index r
                  (on_disk ∪ filter (fun kv => under p kv.1 = false) (index r)))
      end
  end.

(** [git add .] (in a project without ignored files) *)
Definition add_all (r : repo) : result unit * repo :=
  (Ok (), set_index r (files r)).

(** Move what HEAD designates to commit [c]: the current branch when HEAD
    is attached, HEAD itself when it is detached. *)
Definition advance (r : repo) (c : nat) (objs : list commit) : repo :=
  match head r with
  | OnBranch b =>
      mkRepo (files r) (index r) objs (<[b := c]> (branches r)) (tags r)
             (head r)
  | Detached _ =>
      mkRepo (files r) (index r) objs (branches r) (tags r) (Detached c)
  end.

(** [git commit -m <message>].  With nothing staged the engine creates no
    commit and [simple-git] resolves with an empty [commit] field, which is
    [None] here; otherwise the result is the new commit. *)
Definition commit_ (message : list N) (r : repo) : result (option nat) * repo :=
  if decide (index r = head_tree r) then (Ok None, r)
  else
    let c := length (objects r) in
    (Ok (Some c),
     advance r c (objects r ++ [mkCommit message (index r) (head_commit r)])).

(** [git tag <name>], for a valid reference name *)
Definition addTag (name : list N) (r : repo) : result unit * repo :=
  match tags r !! name with
  | Some _ => (Err (TagExists name), r)
  | None =>
      match head_commit r with
      | None => (Err NoHeadCommit, r)
      | Some c =>
          (Ok (),
           mkRepo (files r) (index r) (objects r) (branches r)
                  (<[name := c]> (tags r)) (head r))
      end
  end.

(** What a bare name designates for [git checkout]: a branch first, then a
    tag. *)
Definition resolve (r : repo) (name : list N) : option head_ref :=
  match branches r !! name with
  | Some _ => Some (OnBranch name)
  | None =>
      match tags r !! name with
      | Some c => Some (Detached c)
      | None => None
      end
  end.

Definition target_commit (r : repo) (h : head_ref) : option nat :=
  match h with
  | OnBranch b => branches r !! b
  | Detached c => Some c
  end.

(** A path can be switched from tree [h] to tree [t] when the two trees
    agree on it (local changes are then carried over) or when the path has
    no local change. *)
Definition switchable (r : repo) (h t : gmap (list N) (list N)) (p : list N)
  : Prop :=
  h !! p = t !! p ∨ (index r !! p = h !! p ∧ files r !! p = h !! p).

(** The files of [cur] after a switch from tree [h] to tree [t]: paths on
    which the trees differ take the content of [t]. *)
Definition switch_tree (h t cur : gmap (list N) (list N))
  : gmap (list N) (list N) :=
  filter (fun kv => h !! kv.1 = t !! kv.1) cur
  ∪ filter (fun kv => h !! kv.1 ≠ t !! kv.1) t.

(** What [git checkout <name>] does with a name that is neither a branch
    nor a tag of the model but means something else to the engine: another
    revision expression ([HEAD], a commit id, [rev~1], a remote-tracking
    name, ...) or a pathspec that is not simply the path of one tracked
    file (a directory, a wildcard).  These forms are outside the model, so
    the engine's answer for them is a parameter of [checkout]; it is [None]
    for a name that has no such meaning. *)
Definition other_names : Type := list N -> repo -> option (result unit * repo).

(** The instance for a name that means nothing else to the engine. *)
Definition no_other_names : other_names := fun _ _ => None.

(** [git checkout <name>].  A branch or tag is switched to; a name with
    another meaning is left to [other]; the path of a tracked file restores
    that file from the index and leaves HEAD where it is; any other name
    matches nothing. *)
Definition checkout (other : other_names) (name : list N) (r : repo)
  : result unit * repo :=
  match resolve r name with
  | Some h' =>
      let h := head_tree r in
      let t := tree_at r (target_commit r h') in
      if decide (set_Forall (switchable r h t) (dom h ∪ dom t))
      then (Ok (),
            mkRepo (switch_tree h t (files r)) (switch_tree h t (index r))
                   (objects r) (branches r) (tags r) h')
      else (Err LocalChanges, r)
  | None =>
      match other name r with
      | Some outcome => outcome
      | None =>
          match index r !! name with
          | Some content =>
              (Ok (),
               mkRepo (<[name := content]> (files r)) (index r) (objects r)
                      (branches r) (tags r) (head r))
          | None => (Err (PathspecNoMatch name), r)
          end
      end
  end.

(** [git checkout -b <name>], for a valid reference name *)
Definition checkoutLocalBranch (name : list N) (r : repo)
  : result unit * repo :=
  match branches r !! name with
  | Some _ => (Err (BranchExists name), r)
  | None =>
      match head_commit r with
      | Some c =>
          (Ok (),
           mkRepo (files r) (index r) (objects r) (<[name := c]> (branches r))
                  (tags r) (OnBranch name))
      | None =>
          (Ok (),
           mkRepo (files r) (index r) (objects r) (branches r) (tags r)
                  (OnBranch name))
      end
  end.

(** The message of the HEAD commit. *)
Definition head_message (r : repo) : option (list N) :=
  match head_commit r with
  | Some c => c_message <$> objects r !! c
  | None => None
  end.

(** [git log -n <limit>]: at most [limit] commits from HEAD along the
    parents, newest first. *)
Fixpoint log_from (limit : nat) (objs : list commit) (c : option nat)
  : list (nat * commit) :=
  match limit with
  | O => []
  | S limit' =>
      match c with
      | None => []
      | Some i =>
          match objs !! i with
          | None => []
          | Some ci => (i, ci) :: log_from limit' objs (c_parent ci)
          end
      end
  end.

Definition log (limit : nat) (r : repo) : list (nat * commit) :=
  log_from limit (objects r) (head_commit r).

End Git.

Import Git.

(** ** The service *)

(** An [async] method: it runs against the repository, leaves it in a new
    state, and either returns or throws. *)
Definition M (A : Type) : Type := repo -> result A * repo.

Definition ret {A : Type} (a : A) : M A := fun r => (Ok a, r).

Definition bind {A B : Type} (m : M A) (f : A -> M B) : M B :=
  fun r =>
    match m r with
    | (Ok a, r') => f a r'
    | (Err e, r') => (Err e, r')
    end.

Notation "x <- m ;; f" := (bind m (fun x => f))
  (at level 100, m at next level, right associativity).
Notation "m ;;; f" := (bind m (fun _ => f))
  (at level 100, right associativity).

(** [message || defaultMessage]: an absent or empty message is falsy. *)
Definition or_default (message : option (list N)) (default : list N)
  : list N :=
  match message with
  | Some (c :: m) => c :: m
  | _ => default
  end.

(** [getWordCount]: a file that cannot be read counts 0 words. *)
Definition getWordCount (filePath : list N) : M nat :=
  fun r =>
    match files r !! filePath with
    | Some content => (Ok (countWords content), r)
    | None => (Ok O, r)
    end.

Definition is_writing_file (file : list N) : bool :=
  endsWith file (js ".md") || endsWith file (js ".txt")
  || endsWith file (js ".fountain").

(** The loop of [getTotalWordCount]. *)
Fixpoint total_loop (fs : list (list N)) (total : nat) : M nat :=
  match fs with
  | [] => ret total
  | file :: rest =>
      if is_writing_file file
      then (n <- getWordCount file ;; total_loop rest (total + n)%nat)
      else total_loop rest total
  end.

Definition getTotalWordCount : M nat :=
  fun r => total_loop (status_files r) O r.

(** [commitChapter]; the result is [result.commit]. *)
Definition commitChapter (chapterPath : list N) (message : option (list N))
  : M (option nat) :=
  wordCount <- getWordCount chapterPath ;;
  let defaultMessage :=
    js "Update " ++ chapterPath ++ js " (" ++ show_Z (Z.of_nat wordCount)
    ++ js " words)" in
  add chapterPath ;;;
  commit_ (or_default message defaultMessage).

(** [commitAll] (the [status] it reads first is not used). *)
Definition commitAll (message : list N) : M (option nat) :=
  totalWordCount <- getTotalWordCount ;;
  let enhancedMessage :=
    message ++ js " (" ++ show_Z (Z.of_nat totalWordCount)
    ++ js " total words)" in
  add_all ;;;
  commit_ enhancedMessage.

(** [createDraftTag]: the count is computed for a default message that is
    never passed on; the tag is created without a message. *)
Definition createDraftTag (tagName : list N) : M unit :=
  getTotalWordCount ;;;
  addTag tagName.

(** [backup]; [now] is [new Date().toISOString()]. *)
Definition backup (message : option (list N)) (now : list N) : M (list N) :=
  let timestamp := hd [] (split_chr 84 now) in
  let backupTag := js "backup-" ++ timestamp in
  commitAll (or_default message (js "Backup: " ++ timestamp)) ;;;
  createDraftTag backupTag ;;;
  ret backupTag.

(** [restoreFromBackup] *)
Definition restoreFromBackup (other : other_names) (tag : list N) : M unit :=
  checkout other tag ;;;
  checkoutLocalBranch (js "restore-" ++ tag).

(** ** The log, as the service receives it

    [this.git.log(args)] runs [git log] with a [--pretty=format:] of the
    library's own, in which every commit starts with a boundary mark and
    its fields are separated by a splitter, followed by [args]; it then
    cuts the output at these marks.  Both calls of the service pass a
    format of their own in [args] ([--oneline], and
    [--pretty=format:%h|%ai|%s]), and for git the last format given is the
    one that counts: the output that is parsed carries no mark. *)

(** The marks of the library: six [242] and a space before a commit, a
    space and two [242] after its fields, and space, [242], space between
    two fields ([242] is the code unit of the letter o with a grave
    accent). *)
Definition START_BOUNDARY : list N := [242; 242; 242; 242; 242; 242; 32]%N.
Definition COMMIT_BOUNDARY : list N := [32; 242; 242]%N.
Definition SPLITTER : list N := [32; 242; 32]%N.

(** The fields of a log entry that the service reads. *)
Record LogLine : Type := mkLogLine {
  ll_hash : list N;
  ll_date : list N;
  ll_message : list N
}.

(** [line[field] = tokens[index] || ''] for the fields [hash], [date] and
    [message], the first three of the library's format. *)
Definition lineBuilder (tokens : list (list N)) : LogLine :=
  mkLogLine (nth 0 tokens []) (nth 1 tokens []) (nth 2 tokens []).

(** The library's parser of the output of [git log]: [log.all].  The
    trimmed output is cut at the start marks, empty pieces are dropped, and
    of each piece the part before the commit boundary is cut into
    fields. *)
Definition parse_log (stdOut : list N) : list LogLine :=
  map (fun item =>
         lineBuilder (split_str SPLITTER (hd [] (split_str COMMIT_BOUNDARY item))))
      (filter (fun item => item <> []) (split_str START_BOUNDARY (trim stdOut))).

(** White space for git (the [isspace] of C). *)
Definition is_blank (c : N) : bool := ((9 <=? c)%N && (c <=? 13)%N) || (c =? 32)%N.

Fixpoint drop_blank (s : list N) : list N :=
  match s with
  | c :: s' => if is_blank c then drop_blank s' else s
  | [] => []
  end.

Fixpoint skip_blank_lines (lines : list (list N)) : list (list N) :=
  match lines with
  | [] :: rest => skip_blank_lines rest
  | _ => lines
  end.

Fixpoint first_paragraph (lines : list (list N)) : list (list N) :=
  match lines with
  | [] => []
  | [] :: _ => []
  | line :: rest => line :: first_paragraph rest
  end.

(** [%s], the subject of a commit message: the lines of its first
    paragraph, without their trailing white space, joined by a space. *)
Definition subject (message : list N) : list N :=
  let lines := map (fun l => rev (drop_blank (rev l))) (split_chr 10 message) in
  join_str [32%N] (first_paragraph (skip_blank_lines lines)).

(** The fields of [GitCommitInfo] that [getHistory] takes from the text of
    the log (author and date are not modelled). *)
Record GitCommitInfo : Type := mkInfo {
  i_hash : list N;
  i_message : list N;
  i_wordCount : option Z
}.

(** A text without the code unit of the library's marks. *)
Definition no_mark (s : list N) : Prop := Forall (fun c => c <> 242%N) s.

(** The digits of an abbreviated commit id. *)
Definition is_hex (c : N) : bool :=
  is_digit c || ((97 <=? c)%N && (c <=? 102)%N).

(** Abbreviated ids as git prints them: non-empty, of hexadecimal
    digits. *)
Definition hex_ids (abbrev : nat -> list N) : Prop :=
  forall n, abbrev n <> [] /\ Forall (fun x => is_hex x = true) (abbrev n).

Section CommitIds.

(** [%h], the abbreviated id that git prints for a commit: a parameter,
    since commits are numbered here and their ids are hashes. *)
Variable abbrev : nat -> list N.

(** The output of [git log -n <limit> --oneline]: for each commit, newest
    first, its abbreviated id, a space, its subject and a line feed. *)
Definition oneline (limit : nat) (r : repo) : list N :=
  concat (map (fun e => abbrev e.1 ++ [32%N] ++ subject (c_message e.2)
                        ++ [10%N])
              (log limit r)).

(** [getHistory]: one record per entry of [log.all].  On a branch without
    a commit [git log] fails. *)
Definition getHistory (limit : nat) : M (list GitCommitInfo) :=
  fun r =>
    match head_commit r with
    | None => (Err NoHeadCommit, r)
    | Some _ =>
        (Ok (map (fun commit =>
                    mkInfo (ll_hash commit) (ll_message commit)
                      (extractWordCountFromMessage (ll_message commit)))
                 (parse_log (oneline limit r))), r)
    end.

End CommitIds.

(** The output of [git log --pretty=format:%h|%ai|%s] for a window of
    commits, newest first, each given by its abbreviated id, its author
    date and its subject: one line per commit, lines separated by a line
    feed. *)
Definition pretty_lines (window : list (list N * list N * list N))
  : list (list N) :=
  map (fun e => e.1.1 ++ [124%N] ++ e.1.2 ++ [124%N] ++ e.2) window.

Definition pretty_output (window : list (list N * list N * list N)) : list N :=
  join_str [10%N] (pretty_lines window).

(** [log.all.map(commit => commit.hash)] for an output of [git log]: what
    the loop of [getWordCountHistory] reads. *)
Definition log_hashes (stdOut : list N) : list (list N) :=
  map ll_hash (parse_log stdOut).

(** ** Auxiliary definitions for the proofs about the decoding pattern

    [match_det] is a deterministic scanner; [match_here_det] below shows
    that the backtracking matcher computes the same function on
    [wordCountPattern]. *)

Fixpoint skip (p : N -> bool) (s : list N) : list N :=
  match s with
  | c :: s' => if p c then skip p s' else s
  | [] => []
  end.

Fixpoint run (p : N -> bool) (s : list N) : list N :=
  match s with
  | c :: s' => if p c then c :: run p s' else []
  | [] => []
  end.

Fixpoint strip (l s : list N) : option (list N) :=
  match l with
  | [] => Some s
  | c :: l' =>
      match s with
      | x :: s' => if (x =? c)%N then strip l' s' else None
      | [] => None
      end
  end.

Definition acc_close (s : list N) : bool :=
  match s with
  | x :: s' =>
      if (x =? 115)%N
      then match s' with
           | y :: _ => (y =? 41)%N
           | [] => false
           end
      else (x =? 41)%N
  | [] => false
  end.

Definition acc_word (s : list N) : bool :=
  match strip (js "word") s with
  | Some s' => acc_close s'
  | None => false
  end.

Definition acc_total (s : list N) : bool :=
  match strip (js "total") s with
  | Some (y :: s'') => is_space y && acc_word (skip is_space s'')
  | Some [] => false
  | None => acc_word s
  end.

Definition acc_spaces (s : list N) : bool :=
  match s with
  | y :: s' => is_space y && acc_total (skip is_space s')
  | [] => false
  end.

Definition match_det (s : list N) : option (list N) :=
  match s with
  | x :: d :: r =>
      if (x =? 40)%N && is_digit d && acc_spaces (skip is_digit r)
      then Some (d :: run is_digit r)
      else None
  | _ => None
  end.

(** The final continuation of [match_here]. *)
Definition kf : list N -> option (list N) -> option (list N) := fun _ cap => cap.

(** ** Auxiliary definitions for the statements about the history and
    the backup *)

(** The fields that one iteration of the history loop reads from a log
    line: [date] and [message], when the line has them. *)
Definition line_fields (line : list N) : option (list N * list N) :=
  match split_chr 124 line with
  | _ :: date :: message :: _ => Some (date, message)
  | _ => None
  end.

Definition line_count (line : list N) : Z :=
  match line_fields line with
  | Some (_, message) => count_or_zero (extractWordCountFromMessage message)
  | None => 0
  end.

Definition line_day (line : list N) : list N :=
  match line_fields line with
  | Some (date, _) => hd [] (split_chr 32 date)
  | None => []
  end.

(** The entries for [lines], oldest first, after a commit whose count was
    [previousCount]. *)
Fixpoint entries_after (previousCount : Z) (lines : list (list N))
  : list HistoryEntry :=
  match lines with
  | [] => []
  | line :: rest =>
      mkEntry (line_day line) (line_count line)
              (line_count line - previousCount)
      :: entries_after (line_count line) rest
  end.

(** The tag name that [backup] computes from the clock. *)
Definition backupTagAt (now : list N) : list N :=
  js "backup-" ++ hd [] (split_chr 84 now).

(** The repository with one more tag. *)
Definition with_tag (r : repo) (name : list N) (c : nat) : repo :=
  mkRepo (files r) (index r) (objects r) (branches r)
         (<[name := c]> (tags r)) (head r).

(** ** Example repositories *)

Definition tree_setup : gmap (list N) (list N) :=
  {[ js ".gitignore" := js "node_modules/" ]}.

(** A project right after [initialize]: one commit, nothing to commit. *)
Definition repo_initial : repo :=
  mkRepo tree_setup tree_setup
    [mkCommit (js "Initial commit: Writer project setup") tree_setup None]
    {[ js "main" := O ]} ∅ (OnBranch (js "main")).

(** The same project with a new chapter on disk. *)
Definition repo_chapter : repo :=
  mkRepo (<[ js "chapters/01.md" := js "The quick brown fox jumps." ]> tree_setup)
    tree_setup (objects repo_initial) (branches repo_initial) ∅
    (OnBranch (js "main")).

Definition tree_one : gmap (list N) (list N) :=
  <[ js "a.md" := js "one two three" ]> tree_setup.

(** A project whose chapter [a.md] is committed and unchanged, with a new
    chapter [b.md] on disk. *)
Definition repo_mixed : repo :=
  mkRepo (<[ js "b.md" := js "four" ]> tree_one) tree_one
    [mkCommit (js "Initial commit: Writer project setup") tree_setup None;
     mkCommit (js "Add a (3 total words)") tree_one (Some O)]
    {[ js "main" := 1%nat ]} ∅ (OnBranch (js "main")).

(** A clean project with two commits and a snapshot tag on the first. *)
Definition repo_tagged : repo :=
  mkRepo tree_one tree_one (objects repo_mixed) {[ js "main" := 1%nat ]}
    {[ js "backup-2025-01-15" := O ]} (OnBranch (js "main")).


(** A window of three commits, newest first; the second commit carries no
    count. *)
Definition window_sample : list (list N * list N * list N) :=
  [(js "c3c3c3c", js "2025-01-03 08:00:00 +0000", js "Third (30 total words)");
   (js "b2b2b2b", js "2025-01-02 10:00:00 +0000", js "Fix typo");
   (js "a1a1a1a", js "2025-01-01 09:00:00 +0000", js "Start (10 total words)")].

(** [log.all] for that window, as [getWordCountHistory] receives it: the
    [hash] fields of what the library parses from git's output. *)
Definition log_sample : list (list N) :=
  log_hashes (pretty_output window_sample).

(** A history whose counts are all zero. *)
Definition history_zero : list HistoryEntry :=
  [mkEntry (js "2025-01-01") 0 0; mkEntry (js "2025-01-02") 0 0].

(** The claim's reading of the project-wide count: every writing file of
    the project directory. *)
Definition all_files_word_count (r : repo) : nat :=
  map_fold (fun p content acc =>
              if is_writing_file p then (acc + countWords content)%nat else acc)
           O (files r).

(** ** Further methods of the service and their callers *)

(** [s.replace(/\s+/g, '-')]: every maximal run of white space becomes one
    hyphen. *)
Fixpoint replace_ws_go (in_run : bool) (s : list N) : list N :=
  match s with
  | [] => []
  | c :: s' =>
      if is_space c
      then (if in_run then replace_ws_go true s'
            else 45%N :: replace_ws_go true s')
      else c :: replace_ws_go false s'
  end.

Definition replace_ws (s : list N) : list N := replace_ws_go false s.

Section Branching.

(** [String.prototype.toLowerCase], taken as given. *)
Variable toLowerCase : list N -> list N.

(** The branch name that [branchChapter] (and the message of
    [BranchCommand]) builds from a chapter name. *)
Definition chapterBranchName (chapterName : list N) : list N :=
  js "chapter/" ++ replace_ws (toLowerCase chapterName).

Definition branchChapter (chapterName : list N) : M unit :=
  let branchName := chapterBranchName chapterName in
  checkoutLocalBranch branchName.

End Branching.

(** [toLowerCase] on ASCII letters; other code units are kept.  It agrees
    with JavaScript on texts whose letters are all ASCII and serves as the
    instance in the examples. *)
Definition ascii_lower (s : list N) : list N :=
  map (fun c => if (65 <=? c)%N && (c <=? 90)%N then (c + 32)%N else c) s.

Section Merging.

(** [this.git.merge([branch])], taken as given. *)
Variable merge : list (list N) -> M unit.

Definition mergeChapter (other : other_names) (chapterBranch : list N)
  : M unit :=
  checkout other (js "main") ;;;
  merge [chapterBranch].

End Merging.

(** The create branch of the [backup] command handler:
    [message = argv.message || (argv.tag ? `Draft backup: ${argv.tag}` : undefined)],
    then [gitService.backup(message)].  The name [`draft-${argv.tag}`] that
    the handler also computes is not used. *)
Definition backupHandler (tag message : option (list N)) (now : list N)
  : M (list N) :=
  let message' :=
    match message with
    | Some (c :: m) => Some (c :: m)
    | _ =>
        match tag with
        | Some (c :: t) => Some (js "Draft backup: " ++ c :: t)
        | _ => None
        end
    end in
  backup message' now.

(** [wordHistory.reduce((sum, entry) => sum + entry.change, 0)], the
    "weekly change" of the [status] command. *)
Definition weeklyChange (wordHistory : list HistoryEntry) : Z :=
  fold_left (fun sum entry => sum + h_change entry) wordHistory 0.

(** The word-history block of the [status] command, given what
    [getWordCountHistory(7)] returned: the two numbers it prints (the
    recent change and the weekly change), or [None] when it prints
    nothing. *)
Definition statusWordChanges (wordHistory : list HistoryEntry)
  : option (Z * Z) :=
  if bool_decide (1 < length wordHistory)%nat
  then Some (from_option h_change 0 (last wordHistory), weeklyChange wordHistory)
  else None.

(** ** Diff reporting *)

(** What [diffSummary] returns, as far as [getDiff] reads it. *)
Record DiffSummary : Type := mkDiffSummary {
  ds_files : list (list N);
  ds_insertions : Z;
  ds_deletions : Z
}.

Record ManuscriptDiff : Type := mkManuscriptDiff {
  filesChanged : nat;
  insertions : Z;
  deletions : Z;
  netWordChange : jsnum
}.

(** The arguments that [getDiff] hands to [diffSummary]: a ref is pushed
    when it is truthy. *)
Definition diff_args (fromCommit toCommit : option (list N))
  : list (list N) :=
  [js "--stat"]
  ++ match fromCommit with Some (c :: s) => [c :: s] | _ => [] end
  ++ match toCommit with Some (c :: s) => [c :: s] | _ => [] end.

Definition manuscriptDiff (diffStat : DiffSummary) : ManuscriptDiff :=
  mkManuscriptDiff
    (length (ds_files diffStat))
    (ds_insertions diffStat)
    (ds_deletions diffStat)
    (js_round (js_div (ds_insertions diffStat - ds_deletions diffStat) 5)).

Section Diffing.

(** [this.git.diffSummary(args)] and [this.git.diff(args)], taken as
    given. *)
Variable diffSummary : list (list N) -> M DiffSummary.
Variable diff : list (list N) -> M (list N).

Definition getDiff (fromCommit toCommit : option (list N))
  : M ManuscriptDiff :=
  diffStat <- diffSummary (diff_args fromCommit toCommit) ;;
  ret (manuscriptDiff diffStat).

(** [compareVersions]; the file list is
    [files.split('\n').filter(f => f)]. *)
Definition compareVersions (tag1 tag2 : list N)
  : M (ManuscriptDiff * list (list N)) :=
  d <- getDiff (Some tag1) (Some tag2) ;;
  files <- diff [js "--name-only"; tag1; tag2] ;;
  ret (d, filter (fun f => f <> []) (split_chr 10 files)).

End Diffing.

(** The two estimates that [DiffCommand] prints beside the net change:
    [Math.round(diff.insertions / 5)] and [Math.round(diff.deletions / 5)]. *)
Definition wordsAdded (d : ManuscriptDiff) : jsnum :=
  js_round (js_div (insertions d) 5).

Definition wordsRemoved (d : ManuscriptDiff) : jsnum :=
  js_round (js_div (deletions d) 5).

(** ** Repository bootstrap *)

(** A project directory: either git does not see a repository there, or it
    does. *)
Inductive directory : Type :=
| Plain (fs : gmap (list N) (list N))
| Versioned (r : repo).

(** The text that [createGitignore] writes. *)
Definition gitignoreContent : list N :=
  js "# Writer CLI" ++ [10%N]
  ++ js ".writer/cache/" ++ [10%N]
  ++ js "exports/*.tmp" ++ [10%N]
  ++ js "*.backup.*" ++ [10%N]
  ++ js ".DS_Store" ++ [10%N]
  ++ js "node_modules/" ++ [10%N]
  ++ js "*.log" ++ [10%N]
  ++ js ".env" ++ [10%N].

(** [writeFile(join(projectPath, '.gitignore'), gitignoreContent)] *)
Definition createGitignore : M unit :=
  fun r =>
    (Ok (),
     mkRepo (<[js ".gitignore" := gitignoreContent]> (files r)) (index r)
            (objects r) (branches r) (tags r) (head r)).

Section Bootstrap.

(** The branch that [git init] puts HEAD on (a setting of the engine). *)
Variable defaultBranch : list N.

(** [git init] in a directory with files [fs]. *)
Definition init (fs : gmap (list N) (list N)) : repo :=
  mkRepo fs ∅ [] ∅ ∅ (OnBranch defaultBranch).

Definition initialize (d : directory) : result unit * directory :=
  match d with
  | Versioned r => (Ok (), Versioned r)
  | Plain fs =>
      let '(res, r) :=
        (createGitignore ;;;
         add (js ".gitignore") ;;;
         (commit_ (js "Initial commit: Writer project setup") ;;; ret ()))
          (init fs) in
      (res, Versioned r)
  end.

End Bootstrap.

(** ** Credentials *)

(** [.] in a pattern without the [s] flag: any code unit but a line
    terminator. *)
Definition is_dot (c : N) : bool :=
  negb ((c =? 10)%N || (c =? 13)%N || (c =? 8232)%N || (c =? 8233)%N).

(** [/GITHUB_TOKEN=(.+)/] *)
Definition tokenPattern : regex :=
  Cat (lits (js "GITHUB_TOKEN=")) (Grp (PlusCls is_dot)).

(** [text.match(pattern)] for a pattern of the fragment: group 1 of the
    leftmost match. *)
Fixpoint re_search_with (pattern : regex) (s : list N) : option (list N) :=
  match rmatch pattern s None (fun _ cap => cap) with
  | Some cap => Some cap
  | None =>
      match s with
      | [] => None
      | _ :: s' => re_search_with pattern s'
      end
  end.

(** Where [getGitHubToken] looks: the two environment variables, the
    token file under the home directory and the [.env] file of the project
    (a file is [None] when reading it throws). *)
Record credentials : Type := mkCredentials {
  env_GITHUB_TOKEN : option (list N);
  env_GH_TOKEN : option (list N);
  token_file : option (list N);
  dotenv_file : option (list N)
}.

(** [a || b] on strings that may be undefined. *)
Definition js_or (a b : option (list N)) : option (list N) :=
  match a with
  | Some (c :: s) => Some (c :: s)
  | _ => b
  end.

(** [getGitHubToken]; [null] is [None]. *)
Definition getGitHubToken (w : credentials) : option (list N) :=
  match js_or (env_GITHUB_TOKEN w) (env_GH_TOKEN w) with
  | Some (c :: s) => Some (c :: s)
  | _ =>
      match token_file w with
      | Some token => Some (trim token)
      | None =>
          match dotenv_file w with
          | Some envContent =>
              match re_search_with tokenPattern envContent with
              | Some m => Some (trim m)
              | None => None
              end
          | None => None
          end
      end
  end.

(** [setupAuthentication]: the token handed to git as [GIT_PASSWORD], when
    [if (token)] lets it through. *)
Definition setupAuthentication (w : credentials) : option (list N) :=
  match getGitHubToken w with
  | Some (c :: s) => Some (c :: s)
  | _ => None
  end.

(** ** Remotes *)

(** [str.replace(searchValue, replaceValue)] with two strings: the first
    occurrence of [searchValue] is replaced, and in [replaceValue] the
    patterns [$$], [$&], [$`] and [$'] stand for a dollar sign, the matched
    text, the text before it and the text after it. *)
Fixpoint find_first (pat s : list N) (before : list N)
  : option (list N * list N) :=
  match strip pat s with
  | Some after => Some (before, after)
  | None =>
      match s with
      | [] => None
      | c :: s' => find_first pat s' (before ++ [c])
      end
  end.

Fixpoint substitution (matched before after repl : list N) : list N :=
  match repl with
  | [] => []
  | c :: rest =>
      if (c =? 36)%N
      then match rest with
           | d :: rest' =>
               if (d =? 36)%N
               then 36%N :: substitution matched before after rest'
               else if (d =? 38)%N
               then matched ++ substitution matched before after rest'
               else if (d =? 96)%N
               then before ++ substitution matched before after rest'
               else if (d =? 39)%N
               then after ++ substitution matched before after rest'
               else c :: substitution matched before after rest
           | [] => [c]
           end
      else c :: substitution matched before after rest
  end.

Definition js_replace (str searchValue replaceValue : list N) : list N :=
  match find_first searchValue str [] with
  | Some (before, after) =>
      before ++ substitution searchValue before after replaceValue ++ after
  | None => str
  end.

(** [s.startsWith(prefix)] *)
Definition startsWith (s prefix : list N) : bool :=
  match strip prefix s with
  | Some _ => true
  | None => false
  end.

(** The URL that [configureGitHub] stores for [origin]. *)
Definition authenticatedUrl (repoUrl : list N) (token : option (list N))
  : list N :=
  match token with
  | Some (c :: t) =>
      if startsWith repoUrl (js "https://github.com/")
      then js_replace repoUrl (js "https://github.com/")
             (js "https://" ++ (c :: t) ++ js "@github.com/")
      else repoUrl
  | _ => repoUrl
  end.

Module Remote.

(** The remotes of a repository: name and URL. *)
Inductive remote_error : Type :=
| RemoteExists (name : list N)
| NoSuchRemote (name : list N).

(** [git remote add <name> <url>] *)
Definition addRemote (name url : list N) (s : gmap (list N) (list N))
  : (remote_error + unit) * gmap (list N) (list N) :=
  match s !! name with
  | Some _ => (inl (RemoteExists name), s)
  | None => (inr (), <[name := url]> s)
  end.

(** [git remote set-url <name> <url>] *)
Definition setUrl (name url : list N) (s : gmap (list N) (list N))
  : (remote_error + unit) * gmap (list N) (list N) :=
  match s !! name with
  | Some _ => (inr (), <[name := url]> s)
  | None => (inl (NoSuchRemote name), s)
  end.

End Remote.

(** [configureGitHub] *)
Definition configureGitHub (repoUrl : list N) (token : option (list N))
    (s : gmap (list N) (list N))
  : (Remote.remote_error + unit) * gmap (list N) (list N) :=
  let url := authenticatedUrl repoUrl token in
  let hasOrigin := bool_decide (is_Some (s !! js "origin")) in
  if hasOrigin then Remote.setUrl (js "origin") url s
  else Remote.addRemote (js "origin") url s.

(** One entry of [getRemotes(true)]. *)
Record RemoteWithRefs : Type := mkRemoteWithRefs {
  rr_name : list N;
  rr_fetch : list N;
  rr_push : list N
}.

(** The entries for the remotes of a store, in the store's own order; a
    remote's URL is listed for fetching and for pushing.  The order in
    which the engine lists several remotes is not modelled: the
    properties below read the list of a store with a single remote only. *)
Definition remote_entries (s : gmap (list N) (list N)) : list RemoteWithRefs :=
  map (fun kv => mkRemoteWithRefs kv.1 kv.2 kv.2) (map_to_list s).

(** [hasRemote], from the list that [getRemotes()] returned. *)
Definition hasRemote (remotes : list RemoteWithRefs) : bool :=
  bool_decide (0 < length remotes)%nat.

(** [getRemoteUrl], from the list that [getRemotes(true)] returned. *)
Definition getRemoteUrl (remotes : list RemoteWithRefs) : option (list N) :=
  match remotes with
  | r0 :: _ => js_or (Some (rr_push r0)) (js_or (Some (rr_fetch r0)) None)
  | [] => None
  end.

(** ** Further example data *)

(** [repo_mixed] on a day that already has its backup tag. *)
Definition repo_mixed_tagged : repo :=
  mkRepo (files repo_mixed) (index repo_mixed) (objects repo_mixed)
    (branches repo_mixed) {[ js "backup-2025-01-15" := 1%nat ]}
    (head repo_mixed).


(** A project whose only branch is [master]. *)
Definition repo_master : repo :=
  mkRepo tree_setup tree_setup (objects repo_initial) {[ js "master" := O ]}
    ∅ (OnBranch (js "master")).

(** A plain directory with a chapter and an ignore file of its own. *)
Definition plain_project : gmap (list N) (list N) :=
  <[ js ".gitignore" := js "drafts/" ]>
    {[ js "chapters/01.md" := js "Once upon a time" ]}.

(** No token in the environment, a blank token file, a token in [.env]. *)
Definition credentials_blank_file : credentials :=
  mkCredentials None (Some []) (Some (js "  " ++ [10%N]))
    (Some (js "GITHUB_TOKEN=ghp_fromenv" ++ [10%N])).

(** No token in the environment, no token file, a [.env] file whose
    setting is commented out. *)
Definition credentials_dotenv : credentials :=
  mkCredentials None None None
    (Some (js "OPENROUTER_API_KEY=sk-1" ++ [10%N]
           ++ js "# GITHUB_TOKEN= ghp_old " ++ [10%N]
           ++ js "GITHUB_TOKEN=ghp_new" ++ [10%N])).

(** An engine whose merge does nothing, one whose diff reports fixed
    numbers, and one whose name list is fixed. *)
Definition merge_noop (branches : list (list N)) : M unit :=
  fun r => (Ok (), r).

Definition diffSummary_fixed (args : list (list N)) : M DiffSummary :=
  fun r => (Ok (mkDiffSummary [js "a.md"; js "b.md"] 12 4), r).

Definition diff_fixed (args : list (list N)) : M (list N) :=
  fun r => (Ok (js "a.md" ++ [10%N] ++ js "b.md" ++ [10%N]), r).

(** ** Listing backups *)

(** [s.includes(searchString)] *)
Fixpoint includes (s searchString : list N) : bool :=
  match strip searchString s with
  | Some _ => true
  | None =>
      match s with
      | [] => false
      | _ :: s' => includes s' searchString
      end
  end.

(** The filter of the [--list] branch of the backup command. *)
Definition is_backup_message (message : list N) : bool :=
  includes message (js "Backup:") || includes message (js "Draft:").

(** The [--list] branch of the backup command: the commits it prints. *)
Definition listBackups (abbrev : nat -> list N) : M (list GitCommitInfo) :=
  history <- getHistory abbrev 50 ;;
  ret (filter (fun h => is_backup_message (i_message h) = true) history).

(** A clean project in which a tag has the name of the branch [main]:
    the branch is on the second commit, the tag on the first. *)
Definition repo_both : repo :=
  mkRepo tree_one tree_one (objects repo_mixed) {[ js "main" := 1%nat ]}
    {[ js "main" := O ]} (OnBranch (js "main")).


(** A project on [master] that tracks a file named [main]. *)
Definition repo_main_file : repo :=
  let tree := <[ js "main" := js "entry point" ]> tree_setup in
  mkRepo tree tree
    [mkCommit (js "Initial commit: Writer project setup") tree None]
    {[ js "master" := O ]} ∅ (OnBranch (js "master")).

(** Abbreviated ids for the examples. *)
Definition abbrev_sample (c : nat) : list N :=
  js "a1b2c3" ++ digits (N.of_nat c).

(** A log line whose subject contains the field separator. *)
Definition log_line_with_bar : list N :=
  js "a1|2025-01-01 09:00:00 +0000|Part one | draft (500 total words)".

(** * Properties *)

Example countWords_smoke :
  countWords (js "The quick brown fox jumps.") = 5%nat
  /\ countWords (js " a  b ") = 2%nat
  /\ split_ws (js "   ") = [[]; []]
  /\ split_ws [] = [[]]
  /\ show_Z (-120) = js "-120"
  /\ parseInt10 (js "0042") = 42
  /\ endsWith (js "a.md") (js ".md") = true
  /\ endsWith (js "md") (js ".md") = false
  /\ split_chr 124 (js "a|b||c") = [js "a"; js "b"; []; js "c"].
Proof. vm_compute. repeat split; reflexivity. Qed.

Example decode_smoke :
  extractWordCountFromMessage (js "First line (5 words)") = Some 5
  /\ extractWordCountFromMessage (js "x (12 total  words) (3 words)") = Some 12
  /\ extractWordCountFromMessage (js "x (1 word)") = Some 1
  /\ extractWordCountFromMessage (js "Fix typo") = None
  /\ extractWordCountFromMessage (js "(5words) (5 totalwords) ( 5 words)") = None
  /\ extractWordCountFromMessage (encode_total_words (js "Backup") 1234) = Some 1234.
Proof. vm_compute. repeat split; reflexivity. Qed.

Example chart_smoke :
  visualizeProgress
    [js "b2|2025-01-02 10:00:00 +0000|More (30 total words)";
     js "a1|2025-01-01 09:00:00 +0000|Start (10 total words)"]
  = Ok (chart_header
        ++ js "2025-01-01 " ++ repeat_str bar_glyph 17 ++ js " 10 words (+10)" ++ [10%N]
        ++ js "2025-01-02 " ++ repeat_str bar_glyph 50 ++ js " 30 words (+20)" ++ [10%N]).
Proof. vm_compute. reflexivity. Qed.

(** ** Word-count extractor *)

Lemma countWords_go_tokens (s : list N) :
  (∀ cur, cur ≠ [] →
     length (filter (fun word => (0 < length word)%nat) (split_ws_go false cur s))
     = S (count_tokens_go false s))
  ∧ (∀ b, length (filter (fun word => (0 < length word)%nat) (split_ws_go b [] s))
     = count_tokens_go true s).
Proof.
  induction s as [|c s [IHa IHb]]; split.
  - intros cur Hcur. cbn [split_ws_go count_tokens_go].
    rewrite filter_cons_True; [reflexivity|].
    destruct cur; [congruence | simpl; lia].
  - intros b. cbn [split_ws_go count_tokens_go].
    rewrite filter_cons_False; [reflexivity | simpl; lia].
  - intros cur Hcur. cbn [split_ws_go count_tokens_go]. destruct (is_space c).
    + rewrite filter_cons_True by (destruct cur; [congruence | simpl; lia]).
      cbn [length]. now rewrite IHb.
    + apply IHa. destruct cur; discriminate.
  - intros b. cbn [split_ws_go count_tokens_go]. destruct (is_space c).
    + destruct b; [apply IHb|].
      rewrite filter_cons_False by (simpl; lia). apply IHb.
    + cbn [app]. apply IHa. discriminate.
Qed.

(** ** Commit-message codec *)

Lemma star_greedy {R : Type} (p : N -> bool) (k : list N -> option R) s :
  (forall c r, p c = true -> k (c :: r) = None) ->
  star p s k = k (skip p s).
Proof.
  intros Hk. induction s as [|c s IH]; simpl; [reflexivity|].
  destruct (p c) eqn:Hp; [|reflexivity].
  rewrite IH. destruct (k (skip p s)) eqn:E; [reflexivity|].
  now apply Hk.
Qed.

Lemma rmatch_lits {R : Type} l s cap (k : list N -> option (list N) -> option R) :
  rmatch (lits l) s cap k
  = match strip l s with Some s' => k s' cap | None => None end.
Proof.
  revert s. induction l as [|c l IH]; intros s; simpl; [reflexivity|].
  destruct s as [|x s]; [reflexivity|].
  destruct (x =? c)%N; [apply IH | reflexivity].
Qed.

Lemma rmatch_close s cap :
  rmatch (Cat (Opt (Lit 115)) (Lit 41)) s cap kf
  = if acc_close s then cap else None.
Proof.
  unfold kf. simpl. destruct s as [|x s]; [reflexivity|]. simpl.
  destruct (x =? 115)%N eqn:E.
  - apply N.eqb_eq in E. subst x. simpl.
    destruct s as [|y s]; [reflexivity|].
    destruct (y =? 41)%N, cap; reflexivity.
  - destruct (x =? 41)%N; reflexivity.
Qed.

Lemma rmatch_cat {R : Type} r1 r2 s cap (k : list N -> option (list N) -> option R) :
  rmatch (Cat r1 r2) s cap k = rmatch r1 s cap (fun s' cap' => rmatch r2 s' cap' k).
Proof. reflexivity. Qed.

Lemma rmatch_opt {R : Type} r s cap (k : list N -> option (list N) -> option R) :
  rmatch (Opt r) s cap k
  = match rmatch r s cap k with Some res => Some res | None => k s cap end.
Proof. reflexivity. Qed.

Lemma rmatch_plus {R : Type} p s cap (k : list N -> option (list N) -> option R) :
  rmatch (PlusCls p) s cap k
  = match s with
    | x :: s' => if p x then star p s' (fun s'' => k s'' cap) else None
    | [] => None
    end.
Proof. reflexivity. Qed.

Lemma rmatch_word s cap :
  rmatch (Cat (lits (js "word")) (Cat (Opt (Lit 115)) (Lit 41))) s cap kf
  = if acc_word s then cap else None.
Proof.
  rewrite rmatch_cat, rmatch_lits. unfold acc_word.
  destruct (strip (js "word") s); [apply rmatch_close | reflexivity].
Qed.

Lemma is_space_not (c : N) : is_space c = true ->
  (c =? 116)%N = false /\ (c =? 119)%N = false /\ is_digit c = false.
Proof.
  unfold is_space, is_digit. intros H.
  repeat split.
  - destruct (N.eqb_spec c 116); [subst; discriminate | reflexivity].
  - destruct (N.eqb_spec c 119); [subst; discriminate | reflexivity].
  - destruct (48 <=? c)%N eqn:E1, (c <=? 57)%N eqn:E2; try reflexivity.
    apply N.leb_le in E1, E2.
    repeat match type of H with
    | context [(?a <=? c)%N] => let E := fresh in destruct (N.leb_spec a c) as [E|E]
    | context [(c <=? ?a)%N] => let E := fresh in destruct (N.leb_spec c a) as [E|E]
    | context [(c =? ?a)%N] => let E := fresh in destruct (N.eqb_spec c a) as [E|E]
    end; simpl in H; try discriminate; lia.
Qed.

Lemma acc_word_space c s : is_space c = true -> acc_word (c :: s) = false.
Proof.
  intros H. apply is_space_not in H as (_ & H & _).
  unfold acc_word. change (js "word") with [119; 111; 114; 100]%N.
  cbn [strip]. now rewrite H.
Qed.

Lemma acc_total_space c s : is_space c = true -> acc_total (c :: s) = false.
Proof.
  intros H. pose proof (acc_word_space c s H) as Hw.
  apply is_space_not in H as (H & _ & _).
  unfold acc_total. change (js "total") with [116; 111; 116; 97; 108]%N.
  cbn [strip]. now rewrite H.
Qed.

Lemma acc_spaces_digit c s : is_digit c = true -> acc_spaces (c :: s) = false.
Proof.
  intros H. unfold acc_spaces.
  destruct (is_space c) eqn:E; [|reflexivity].
  apply is_space_not in E as (_ & _ & E). congruence.
Qed.

Lemma rmatch_total s cap :
  rmatch (Cat (Opt (Cat (lits (js "total")) (PlusCls is_space)))
            (Cat (lits (js "word")) (Cat (Opt (Lit 115)) (Lit 41)))) s cap kf
  = if acc_total s then cap else None.
Proof.
  rewrite rmatch_cat, rmatch_opt, rmatch_cat, rmatch_lits. unfold acc_total.
  destruct (strip (js "total") s) as [s'|] eqn:Es.
  - assert (Hw : acc_word s = false).
    { unfold acc_word. destruct s as [|x s]; [reflexivity|].
      change (js "total") with [116; 111; 116; 97; 108]%N in Es.
      change (js "word") with [119; 111; 114; 100]%N.
      cbn [strip] in Es |- *. destruct (x =? 116)%N eqn:E; [|discriminate].
      apply N.eqb_eq in E. subst x. reflexivity. }
    rewrite rmatch_word, Hw, rmatch_plus.
    destruct s' as [|y s'']; [reflexivity|].
    destruct (is_space y) eqn:Ey; [|reflexivity].
    rewrite star_greedy.
    + rewrite rmatch_word. simpl. destruct (acc_word (skip is_space s'')), cap; reflexivity.
    + intros c r Hc. rewrite rmatch_word, acc_word_space by assumption. reflexivity.
  - apply rmatch_word.
Qed.

Lemma rmatch_spaces s cap :
  rmatch (Cat (PlusCls is_space)
         (Cat (Opt (Cat (lits (js "total")) (PlusCls is_space)))
            (Cat (lits (js "word")) (Cat (Opt (Lit 115)) (Lit 41))))) s cap kf
  = if acc_spaces s then cap else None.
Proof.
  rewrite rmatch_cat, rmatch_plus. unfold acc_spaces.
  destruct s as [|y s]; [reflexivity|].
  destruct (is_space y); [|reflexivity].
  rewrite star_greedy.
  - apply rmatch_total.
  - intros c r Hc. rewrite rmatch_total, acc_total_space by assumption. reflexivity.
Qed.

Lemma run_skip p s : run p s ++ skip p s = s.
Proof.
  induction s as [|c s IH]; simpl; [reflexivity|].
  destruct (p c); simpl; [now rewrite IH | reflexivity].
Qed.

Lemma take_run p s : take (length s - length (skip p s)) s = run p s.
Proof.
  rewrite <- (run_skip p s) at 1 3. rewrite length_app.
  replace (length (run p s) + length (skip p s) - length (skip p s))%nat
    with (length (run p s)) by lia.
  now rewrite take_app_length.
Qed.

Lemma rmatch_lit {R : Type} c s cap (k : list N -> option (list N) -> option R) :
  rmatch (Lit c) s cap k
  = match s with
    | x :: s' => if (x =? c)%N then k s' cap else None
    | [] => None
    end.
Proof. reflexivity. Qed.

Lemma rmatch_grp {R : Type} r s cap (k : list N -> option (list N) -> option R) :
  rmatch (Grp r) s cap k
  = rmatch r s cap (fun s' _ => k s' (Some (take (length s - length s') s))).
Proof. reflexivity. Qed.

Lemma match_here_det s : match_here s = match_det s.
Proof.
  unfold match_here, wordCountPattern. fold kf.
  rewrite rmatch_cat, rmatch_lit. unfold match_det.
  destruct s as [|x s]; [reflexivity|].
  destruct (x =? 40)%N; [|destruct s; reflexivity]. cbn [andb].
  rewrite rmatch_cat, rmatch_grp, rmatch_plus.
  destruct s as [|d r]; [reflexivity|].
  destruct (is_digit d) eqn:Ed; [|reflexivity]. cbn [andb].
  rewrite star_greedy.
  - rewrite rmatch_spaces.
    destruct (acc_spaces (skip is_digit r)); [|reflexivity].
    f_equal. change (d :: r) with ([d] ++ r) at 2.
    replace (length (d :: r) - length (skip is_digit r))%nat
      with (length [d] + (length r - length (skip is_digit r)))%nat.
    + rewrite take_app_add. simpl. now rewrite take_run.
    + pose proof (f_equal length (run_skip is_digit r)) as E.
      rewrite length_app in E. simpl. lia.
  - intros c r' Hc. rewrite rmatch_spaces, acc_spaces_digit by assumption.
    reflexivity.
Qed.

(** Appending text that begins with a space and an opening parenthesis
    cannot complete a match that starts earlier. *)
Lemma strip_app_Some l s s' u :
  strip l s = Some s' -> strip l (s ++ u) = Some (s' ++ u).
Proof.
  revert s. induction l as [|c l IH]; intros s; simpl.
  - intros [= <-]. reflexivity.
  - destruct s as [|x s]; [discriminate|]. simpl.
    destruct (x =? c)%N; [apply IH | discriminate].
Qed.

Lemma strip_app_inv l s t x :
  Forall (fun c => c <> 32%N) l ->
  strip l (s ++ 32%N :: t) = Some x ->
  exists s', strip l s = Some s' /\ x = s' ++ 32%N :: t.
Proof.
  intros Hl. revert s.
  induction Hl as [|c l Hc Hl IH]; intros s; cbn [strip].
  - intros [= <-]. eauto.
  - destruct s as [|y s]; cbn [strip app].
    + destruct (N.eqb_spec 32 c); [congruence | discriminate].
    + destruct (y =? c)%N; [apply IH | discriminate].
Qed.

Lemma acc_close_stable s t :
  acc_close (s ++ 32%N :: 40%N :: t) = true -> acc_close s = true.
Proof.
  destruct s as [|x [|y s]]; cbn [app acc_close]; [discriminate | | tauto].
  destruct (x =? 115)%N; [discriminate | tauto].
Qed.

Lemma acc_word_stable s t :
  acc_word (s ++ 32%N :: 40%N :: t) = true -> acc_word s = true.
Proof.
  unfold acc_word.
  destruct (strip (js "word") (s ++ 32%N :: 40%N :: t)) as [x|] eqn:E;
    [|discriminate].
  apply strip_app_inv in E as (s' & -> & ->).
  - apply acc_close_stable.
  - repeat constructor; discriminate.
Qed.

Lemma skip_stable (f : list N -> bool) s t :
  f (40%N :: t) = false ->
  (forall s', f (s' ++ 32%N :: 40%N :: t) = true -> f s' = true) ->
  f (skip is_space (s ++ 32%N :: 40%N :: t)) = true ->
  f (skip is_space s) = true.
Proof.
  intros H40 Hf. induction s as [|c s IH]; simpl.
  - change (is_space 32) with true. cbv iota. simpl. congruence.
  - destruct (is_space c); [exact IH | apply (Hf (c :: s))].
Qed.

Lemma acc_total_stable s t :
  acc_total (s ++ 32%N :: 40%N :: t) = true -> acc_total s = true.
Proof.
  unfold acc_total.
  destruct (strip (js "total") (s ++ 32%N :: 40%N :: t)) as [x|] eqn:E.
  - apply strip_app_inv in E as (s' & -> & ->);
      [|repeat constructor; discriminate].
    destruct s' as [|y s'']; simpl.
    + discriminate.
    + destruct (is_space y); [|discriminate]. simpl.
      apply (skip_stable acc_word s'' t);
        [reflexivity | intros s0; apply acc_word_stable].
  - destruct (strip (js "total") s) as [s'|] eqn:E'.
    + apply (strip_app_Some _ _ _ (32%N :: 40%N :: t)) in E'. congruence.
    + apply acc_word_stable.
Qed.

Lemma acc_spaces_stable s t :
  acc_spaces (s ++ 32%N :: 40%N :: t) = true -> acc_spaces s = true.
Proof.
  unfold acc_spaces. destruct s as [|y s]; simpl.
  - discriminate.
  - destruct (is_space y); [|discriminate]. simpl.
    apply (skip_stable acc_total s t);
      [reflexivity | intros s0; apply acc_total_stable].
Qed.

Lemma skip_digit_stable s t :
  acc_spaces (skip is_digit (s ++ 32%N :: 40%N :: t)) = true ->
  acc_spaces (skip is_digit s) = true.
Proof.
  induction s as [|c s IH]; simpl.
  - discriminate.
  - destruct (is_digit c); [exact IH | apply (acc_spaces_stable (c :: s))].
Qed.

Lemma match_here_stable s t :
  match_here s = None -> match_here (s ++ 32%N :: 40%N :: t) = None.
Proof.
  rewrite !match_here_det. unfold match_det.
  destruct s as [|x [|d r]]; simpl; try reflexivity.
  - destruct (x =? 40)%N; reflexivity.
  - destruct (x =? 40)%N; [|reflexivity].
    destruct (is_digit d); [|reflexivity]. simpl.
    destruct (acc_spaces (skip is_digit r)) eqn:E; [discriminate|].
    intros _.
    destruct (acc_spaces (skip is_digit (r ++ 32%N :: 40%N :: t))) eqn:E';
      [|reflexivity].
    apply skip_digit_stable in E'. congruence.
Qed.

Lemma re_search_app s t :
  re_search s = None ->
  re_search (s ++ 32%N :: 40%N :: t) = re_search (40%N :: t).
Proof.
  induction s as [|c s IH]; intros H.
  - simpl app. cbn [re_search].
    replace (match_here (32%N :: 40%N :: t)) with (@None (list N))
      by (rewrite match_here_det; reflexivity).
    reflexivity.
  - cbn [re_search] in H. destruct (match_here (c :: s)) eqn:E; [discriminate|].
    change ((c :: s) ++ 32%N :: 40%N :: t) with (c :: (s ++ 32%N :: 40%N :: t)).
    cbn [re_search].
    change (c :: (s ++ 32%N :: 40%N :: t)) with ((c :: s) ++ 32%N :: 40%N :: t).
    rewrite (match_here_stable _ _ E). apply IH. exact H.
Qed.

(** Decimal digits. *)
Lemma uint_units_digits d : Forall (fun c => is_digit c = true) (uint_units d).
Proof. induction d; simpl; constructor; auto. Qed.

Lemma digits_cons n : exists d ds, digits n = d :: ds.
Proof.
  unfold digits. destruct n as [|p]; [simpl; eauto|].
  simpl. pose proof (DecimalPos.Unsigned.to_uint_nonnil p) as H.
  destruct (Pos.to_uint p); simpl; eauto. congruence.
Qed.

Lemma skip_digits ds u :
  Forall (fun c => is_digit c = true) ds ->
  skip is_digit (ds ++ 32%N :: u) = 32%N :: u
  /\ run is_digit (ds ++ 32%N :: u) = ds.
Proof.
  induction 1 as [|c ds Hc _ [IH1 IH2]]; simpl.
  - split; reflexivity.
  - rewrite Hc, IH1, IH2. split; reflexivity.
Qed.

Lemma match_here_encoded n u :
  acc_spaces (32%N :: u) = true ->
  match_here (40%N :: digits n ++ 32%N :: u) = Some (digits n).
Proof.
  intros Hu. rewrite match_here_det.
  pose proof (uint_units_digits (N.to_uint n)) as Hd. fold (digits n) in Hd.
  destruct (digits_cons n) as (d & ds & E). rewrite E in Hd |- *.
  apply Forall_cons in Hd as [Hd Hds].
  destruct (skip_digits ds u Hds) as [E1 E2].
  cbn [app match_det]. rewrite E1, E2, Hd, Hu. reflexivity.
Qed.

Lemma parse_uint_acc d (acc : positive) :
  fold_left (fun a c => (10 * a + (c - 48))%N) (uint_units d) (N.pos acc)
  = N.pos (Pos.of_uint_acc d acc).
Proof.
  revert acc. induction d; intros acc; cbn [uint_units fold_left Pos.of_uint_acc];
    try reflexivity;
    match goal with
    | |- fold_left _ _ ?x = _ =>
        match goal with
        | |- _ = N.pos (Pos.of_uint_acc _ ?y) =>
            replace x with (N.pos y) by (cbn; lia)
        end
    end; apply IHd.
Qed.

Lemma parse_uint d :
  fold_left (fun a c => (10 * a + (c - 48))%N) (uint_units d) 0%N
  = N.of_uint d.
Proof.
  unfold N.of_uint.
  induction d; cbn [uint_units fold_left Pos.of_uint]; try reflexivity;
    try (exact IHd);
    match goal with
    | |- fold_left _ _ ?x = N.pos (Pos.of_uint_acc _ ?y) =>
        change x with (N.pos y)
    end; apply parse_uint_acc.
Qed.

Lemma parseInt10_digits n : parseInt10 (digits n) = Z.of_N n.
Proof.
  unfold parseInt10, digits. rewrite parse_uint.
  now rewrite DecimalN.Unsigned.of_to.
Qed.

Lemma show_Z_nonneg n : 0 <= n -> show_Z n = digits (Z.to_N n).
Proof.
  intros H. unfold show_Z. destruct (Z.ltb_spec n 0); [lia | reflexivity].
Qed.

Lemma decode_encode_words S n :
  0 <= n -> re_search S = None ->
  extractWordCountFromMessage (encode_words S n) = Some n.
Proof.
  intros Hn HS. unfold extractWordCountFromMessage, encode_words.
  rewrite (show_Z_nonneg n Hn).
  change (js " (") with [32; 40]%N. cbn [app].
  change (S ++ 32%N :: 40%N :: digits (Z.to_N n) ++ js " words)")
    with (S ++ 32%N :: 40%N :: (digits (Z.to_N n) ++ 32%N :: js "words)")).
  rewrite re_search_app by assumption.
  cbn [re_search]. rewrite match_here_encoded by reflexivity.
  rewrite parseInt10_digits. f_equal. lia.
Qed.

Lemma decode_encode_total_words S n :
  0 <= n -> re_search S = None ->
  extractWordCountFromMessage (encode_total_words S n) = Some n.
Proof.
  intros Hn HS. unfold extractWordCountFromMessage, encode_total_words.
  rewrite (show_Z_nonneg n Hn).
  change (js " (") with [32; 40]%N. cbn [app].
  change (S ++ 32%N :: 40%N :: digits (Z.to_N n) ++ js " total words)")
    with (S ++ 32%N :: 40%N :: (digits (Z.to_N n) ++ 32%N :: js "total words)")).
  rewrite re_search_app by assumption.
  cbn [re_search]. rewrite match_here_encoded by reflexivity.
  rewrite parseInt10_digits. f_equal. lia.
Qed.

(** ** Word-count history *)

Lemma history_loop_entries commits previousCount history :
  Forall (fun line => is_Some (line_fields line)) commits ->
  history_loop commits previousCount history
  = Ok (history ++ entries_after previousCount commits).
Proof.
  intros H. revert previousCount history.
  induction H as [|line rest [[d m] Hl] _ IH]; intros prev history.
  - simpl. now rewrite app_nil_r.
  - cbn [history_loop entries_after].
    unfold line_count, line_day. rewrite Hl.
    unfold line_fields in Hl.
    destruct (split_chr 124 line) as [|h [|d' [|m' rest']]]; try discriminate.
    injection Hl as -> ->.
    rewrite IH, <- app_assoc. reflexivity.
Qed.

Lemma count_or_zero_nonneg m : 0 <= count_or_zero (extractWordCountFromMessage m).
Proof.
  unfold count_or_zero, extractWordCountFromMessage.
  destruct (re_search m) as [ds|]; [|lia].
  destruct (parseInt10 ds =? 0); [lia|]. unfold parseInt10. lia.
Qed.

Lemma history_loop_nonneg commits prev history out :
  Forall (fun e => 0 <= h_wordCount e) history ->
  history_loop commits prev history = Ok out ->
  Forall (fun e => 0 <= h_wordCount e) out.
Proof.
  revert prev history. induction commits as [|c cs IH]; intros prev history Hh.
  - simpl. intros [= <-]. exact Hh.
  - cbn [history_loop].
    destruct (split_chr 124 c) as [|h [|d [|m rest]]]; try discriminate.
    apply IH. apply Forall_app. split; [exact Hh|].
    constructor; [|constructor]. simpl. apply count_or_zero_nonneg.
Qed.

(** ** Progress chart *)

Lemma max_of_ge x xs : x <= max_of x xs /\ Forall (fun y => y <= max_of x xs) xs.
Proof.
  unfold max_of. revert x. induction xs as [|y ys IH]; intros x; simpl.
  - split; [lia | constructor].
  - destruct (IH (Z.max x y)) as [H1 H2]. split; [lia|].
    constructor; [lia | exact H2].
Qed.

Lemma js_repeat_round_nonneg x wc scale :
  0 <= wc -> (exists q, scale = Fin q /\ (0 <= q)%Q) ->
  exists bar, js_repeat x (js_round (js_mul wc scale)) = Ok bar.
Proof.
  intros Hwc (q & -> & Hq).
  unfold js_mul, js_round, js_repeat, inject_Z at 1. cbn [Qnum Qden].
  rewrite Z.quot_1_r.
  assert (0 <= Qfloor (inject_Z wc * q + (1 # 2)))%Z as H.
  { change 0 with (Qfloor 0). apply Qfloor_resp_le.
    assert (0 <= inject_Z wc * q)%Q.
    { apply Qmult_le_0_compat; [|exact Hq].
      change 0%Q with (inject_Z 0). now rewrite <- Zle_Qle. }
    apply (Qle_trans _ (inject_Z wc * q)); [assumption|].
    rewrite <- (Qplus_0_r (inject_Z wc * q)) at 1.
    apply Qplus_le_r. discriminate. }
  destruct (Z.ltb_spec (Qfloor (inject_Z wc * q + (1 # 2))) 0); [lia|].
  eauto.
Qed.

Lemma chart_loop_ok scale history output :
  Forall (fun e => exists bar,
            js_repeat bar_glyph (js_round (js_mul (h_wordCount e) scale)) = Ok bar)
         history ->
  exists out, chart_loop scale history output = Ok (output ++ out).
Proof.
  intros H. revert output. induction H as [|e es [bar Hb] _ IH]; intros output.
  - exists []. simpl. now rewrite app_nil_r.
  - cbn [chart_loop]. rewrite Hb.
    destruct (IH (output ++ chart_line e bar)) as [out Hout].
    exists (chart_line e bar ++ out). rewrite Hout, <- app_assoc. reflexivity.
Qed.

Lemma chart_loop_zero history output :
  Forall (fun e => h_wordCount e = 0) history ->
  chart_loop PosInf history output
  = Ok (output ++ concat (map (fun e => chart_line e []) history)).
Proof.
  intros H. revert output. induction H as [|e es He _ IH]; intros output.
  - simpl. now rewrite app_nil_r.
  - cbn [chart_loop map concat]. rewrite He. cbn [js_mul Z.ltb Z.compare js_round js_repeat].
    rewrite IH, <- app_assoc. reflexivity.
Qed.

Lemma max_of_zero x xs :
  x = 0 -> Forall (fun y => y = 0) xs -> max_of x xs = 0.
Proof.
  intros -> H. unfold max_of. induction H as [|y ys -> _ IH]; simpl; [reflexivity|].
  exact IH.
Qed.

Lemma render_nonneg history :
  Forall (fun e => 0 <= h_wordCount e) history ->
  exists out, render history = Ok out /\ out <> [].
Proof.
  intros H. destruct history as [|e es].
  - eexists. split; [reflexivity | discriminate].
  - unfold render.
    set (maxWords := max_of (h_wordCount e) (map h_wordCount es)).
    destruct (max_of_ge (h_wordCount e) (map h_wordCount es)) as [Hm1 Hm2].
    fold maxWords in Hm1, Hm2.
    assert (Hall : Forall (fun x => 0 <= h_wordCount x <= maxWords) (e :: es)).
    { apply Forall_cons in H as [He Hes]. constructor; [lia|].
      rewrite Forall_map in Hm2. rewrite Forall_forall in Hes, Hm2 |- *.
      intros x Hx. split; [now apply Hes | now apply Hm2]. }
    destruct (chart_loop_ok (js_div 50 maxWords) (e :: es) chart_header) as [out Hout].
    + eapply Forall_impl; [exact Hall|]. intros x [Hx1 Hx2]. simpl in Hx1, Hx2.
      unfold js_div. destruct (Z.eqb_spec maxWords 0) as [E|E].
      * assert (h_wordCount x = 0) as -> by lia. eexists. reflexivity.
      * apply js_repeat_round_nonneg; [exact Hx1|].
        eexists. split; [reflexivity|].
        apply Qle_shift_div_l.
        -- change 0%Q with (inject_Z 0). rewrite <- Zlt_Qlt. lia.
        -- rewrite Qmult_0_l. discriminate.
    + exists (chart_header ++ out). split; [exact Hout|].
      discriminate.
Qed.

Lemma render_zero history :
  history <> [] ->
  Forall (fun e => h_wordCount e = 0) history ->
  render history
  = Ok (chart_header ++ concat (map (fun e => chart_line e []) history)).
Proof.
  intros Hne H. destruct history as [|e es]; [congruence|].
  unfold render. rewrite max_of_zero.
  - change (js_div 50 0) with PosInf. now apply chart_loop_zero.
  - now apply Forall_cons in H as [He _].
  - apply Forall_cons in H as [_ Hes]. now rewrite Forall_map.
Qed.

(** ** Restore *)

Lemma switch_tree_clean (h t : gmap (list N) (list N)) : switch_tree h t h = t.
Proof.
  apply map_eq. intros p. unfold switch_tree.
  destruct (decide (h !! p = t !! p)) as [E|E].
  - destruct (h !! p) as [x|] eqn:Hh.
    + rewrite (lookup_union_Some_l _ _ p x); [congruence|].
      apply map_lookup_filter_Some. split; [assumption|]. simpl. congruence.
    + rewrite <- E. apply lookup_union_None. split.
      * apply map_lookup_filter_None. left. assumption.
      * apply map_lookup_filter_None. right. intros x Hx. simpl. congruence.
  - rewrite lookup_union_r.
    + destruct (t !! p) as [y|] eqn:Ht.
      * apply map_lookup_filter_Some. split; [assumption|]. simpl. congruence.
      * apply map_lookup_filter_None. left. assumption.
    + apply map_lookup_filter_None. right. intros x Hx. simpl. congruence.
Qed.

Lemma resolve_tag r name c :
  resolve r name = Some (Detached c) ->
  tags r !! name = Some c /\ branches r !! name = None.
Proof.
  unfold resolve. destruct (branches r !! name); [discriminate|].
  destruct (tags r !! name); [|discriminate]. intros [= ->]. now split.
Qed.

Lemma resolve_none r name :
  resolve r name = None ->
  branches r !! name = None /\ tags r !! name = None.
Proof.
  unfold resolve. destruct (branches r !! name); [discriminate|].
  destruct (tags r !! name); [discriminate|]. now split.
Qed.

Lemma restoreFromBackup_missing other r tag :
  branches r !! tag = None -> tags r !! tag = None ->
  other tag r = None -> index r !! tag = None ->
  restoreFromBackup other tag r = (Err (PathspecNoMatch tag), r).
Proof.
  intros Hb Ht Ho Hi. unfold restoreFromBackup, bind, checkout, resolve.
  now rewrite Hb, Ht, Ho, Hi.
Qed.

Lemma restore_frame other r tag c b cb r' :
  head r = OnBranch b ->
  branches r !! b = Some cb ->
  tags r !! tag = Some c ->
  branches r !! tag = None ->
  restoreFromBackup other tag r = (Ok (), r') ->
  branches r' !! b = Some cb
  /\ head r' = OnBranch (js "restore-" ++ tag)
  /\ js "restore-" ++ tag <> b
  /\ branches r !! (js "restore-" ++ tag) = None
  /\ branches r' !! (js "restore-" ++ tag) = Some c
  /\ (forall b', b' <> js "restore-" ++ tag -> branches r' !! b' = branches r !! b')
  /\ tags r' = tags r
  /\ objects r' = objects r
  /\ (clean r -> files r' = tree_at r (Some c)).
Proof.
  intros Hh Hb Ht Hn. unfold restoreFromBackup, bind, checkout, resolve.
  rewrite Hn, Ht. cbn [target_commit].
  destruct (decide _) as [Hs|Hs]; [|discriminate].
  unfold checkoutLocalBranch. cbn [branches head_commit head].
  destruct (branches r !! (js "restore-" ++ tag)) as [x|] eqn:Hr; [discriminate|].
  intros [= <-]. cbn [branches head tags objects files].
  assert (js "restore-" ++ tag <> b) as Hne by congruence.
  repeat split.
  - rewrite lookup_insert_ne by exact Hne. exact Hb.
  - exact Hne.
  - apply lookup_insert_eq.
  - intros b' Hb'. now rewrite lookup_insert_ne.
  - intros [Hc1 Hc2]. rewrite Hc1, Hc2. apply switch_tree_clean.
Qed.

Lemma restore_completes other r tag c :
  clean r ->
  tags r !! tag = Some c ->
  branches r !! tag = None ->
  branches r !! (js "restore-" ++ tag) = None ->
  exists r', restoreFromBackup other tag r = (Ok (), r').
Proof.
  intros [Hc1 Hc2] Ht Hn Hr. unfold restoreFromBackup, bind, checkout, resolve.
  rewrite Hn, Ht. cbn [target_commit].
  destruct (decide _) as [Hs|Hs].
  - unfold checkoutLocalBranch. cbn [branches head_commit head]. rewrite Hr.
    eauto.
  - exfalso. apply Hs. intros p _. right. rewrite Hc1, Hc2. split; reflexivity.
Qed.

(** ** Backup and chapter commits *)

Lemma filter_none {A} (P : A -> Prop) `{forall x, Decision (P x)} (l : list A) :
  (forall x, ~ P x) -> filter P l = [].
Proof.
  intros HP. induction l as [|x l IH]; [reflexivity|].
  rewrite filter_cons_False by apply HP. exact IH.
Qed.

Lemma status_files_clean r : clean r -> status_files r = [].
Proof.
  intros [H1 H2]. unfold status_files. apply filter_none.
  intros p Hp. apply Hp. unfold unchanged. now rewrite H1, H2.
Qed.

Lemma getTotalWordCount_clean r : clean r -> getTotalWordCount r = (Ok O, r).
Proof.
  intros H. unfold getTotalWordCount. now rewrite status_files_clean.
Qed.

Lemma set_index_clean r : clean r -> set_index r (files r) = r.
Proof.
  intros [H1 H2]. destruct r as [f i o b t h]. unfold set_index. simpl in *.
  now subst.
Qed.

Lemma commitAll_clean r message :
  clean r -> commitAll message r = (Ok None, r).
Proof.
  intros H. unfold commitAll, bind. rewrite getTotalWordCount_clean by exact H.
  unfold add_all. rewrite set_index_clean by exact H.
  unfold commit_. destruct H as [H1 H2].
  destruct (decide (index r = head_tree r)); [reflexivity | contradiction].
Qed.

Lemma backup_clean r c message now :
  clean r ->
  head_commit r = Some c ->
  tags r !! backupTagAt now = None ->
  backup message now r = (Ok (backupTagAt now), with_tag r (backupTagAt now) c).
Proof.
  intros Hc Hh Ht. unfold backup, bind. fold (backupTagAt now).
  rewrite commitAll_clean by exact Hc.
  unfold createDraftTag, bind. rewrite getTotalWordCount_clean by exact Hc.
  unfold addTag. rewrite Ht, Hh. reflexivity.
Qed.

Lemma backup_twice r c m1 m2 now1 now2 :
  clean r ->
  head_commit r = Some c ->
  tags r !! backupTagAt now1 = None ->
  tags r !! backupTagAt now2 = None ->
  backupTagAt now1 <> backupTagAt now2 ->
  exists r1 r2,
    backup m1 now1 r = (Ok (backupTagAt now1), r1)
    /\ backup m2 now2 r1 = (Ok (backupTagAt now2), r2)
    /\ objects r2 = objects r
    /\ branches r2 = branches r
    /\ tags r2 !! backupTagAt now1 = Some c
    /\ tags r2 !! backupTagAt now2 = Some c.
Proof.
  intros Hc Hh H1 H2 Hne.
  exists (with_tag r (backupTagAt now1) c).
  exists (with_tag (with_tag r (backupTagAt now1) c) (backupTagAt now2) c).
  split; [now apply backup_clean|].
  split.
  { apply backup_clean; [exact Hc | exact Hh |].
    cbn [with_tag tags]. now rewrite lookup_insert_ne. }
  cbn [with_tag tags objects branches]. repeat split.
  - rewrite lookup_insert_ne by congruence. apply lookup_insert_eq.
  - apply lookup_insert_eq.
Qed.








(** * Further lemmas *)

(** ** Counting leaves the repository alone *)

Lemma total_loop_pure fs total r :
  exists n, total_loop fs total r = (Ok n, r).
Proof.
  revert total. induction fs as [|f fs IH]; intros total; cbn [total_loop].
  - eexists. reflexivity.
  - destruct (is_writing_file f); [|apply IH].
    unfold bind, getWordCount.
    destruct (files r !! f); apply IH.
Qed.

Lemma getTotalWordCount_pure r : exists n, getTotalWordCount r = (Ok n, r).
Proof. apply total_loop_pure. Qed.

Lemma createDraftTag_addTag name r : createDraftTag name r = addTag name r.
Proof.
  unfold createDraftTag, bind.
  destruct (getTotalWordCount_pure r) as [n ->]. reflexivity.
Qed.

(** ** What [commitAll] leaves behind *)

Lemma head_tree_after_commit r message :
  index r <> head_tree r ->
  let r' := snd (commit_ message r) in
  head_commit r' = Some (length (objects r))
  /\ head_tree r' = index r
  /\ files r' = files r /\ index r' = index r /\ tags r' = tags r
  /\ objects r' = objects r ++ [mkCommit message (index r) (head_commit r)]
  /\ (forall b, head r <> OnBranch b -> branches r' !! b = branches r !! b).
Proof.
  intros H. unfold commit_.
  destruct (decide (index r = head_tree r)); [contradiction|].
  cbn [snd]. unfold head_tree, head_commit, advance, tree_at.
  destruct (head r) as [b|c0] eqn:Hh;
    cbn [head branches objects files index tags].
  - rewrite lookup_insert_eq, list_lookup_middle by reflexivity.
    repeat split; try reflexivity.
    intros b' Hb'. rewrite lookup_insert_ne by congruence. reflexivity.
  - rewrite list_lookup_middle by reflexivity. repeat split; reflexivity.
Qed.

Lemma commitAll_unfold r message :
  exists n,
    getTotalWordCount r = (Ok n, r)
    /\ commitAll message r
       = commit_ (encode_total_words message (Z.of_nat n))
           (set_index r (files r)).
Proof.
  destruct (getTotalWordCount_pure r) as [n Hn]. exists n.
  split; [exact Hn|]. unfold commitAll, bind. rewrite Hn. reflexivity.
Qed.

Lemma commitAll_effect r message :
  exists h r',
    commitAll message r = (Ok h, r')
    /\ clean r'
    /\ files r' = files r
    /\ tags r' = tags r
    /\ head_tree r' = files r
    /\ (forall b, head r <> OnBranch b -> branches r' !! b = branches r !! b)
    /\ (files r = head_tree r ->
        h = None /\ objects r' = objects r /\ branches r' = branches r
        /\ head r' = head r)
    /\ (files r <> head_tree r ->
        h = Some (length (objects r))
        /\ head_commit r' = Some (length (objects r))
        /\ exists n,
             getTotalWordCount r = (Ok n, r)
             /\ objects r'
                = objects r
                  ++ [mkCommit (encode_total_words message (Z.of_nat n))
                        (files r) (head_commit r)]).
Proof.
  destruct (commitAll_unfold r message) as (n & Hn & ->).
  set (r0 := set_index r (files r)).
  destruct (decide (files r = head_tree r)) as [E|E].
  - exists None, r0. unfold commit_.
    change (index r0) with (files r). change (head_tree r0) with (head_tree r).
    destruct (decide (files r = head_tree r)); [|contradiction].
    split; [reflexivity|]. split; [split; [reflexivity | exact E]|].
    split; [reflexivity|]. split; [reflexivity|]. split; [now symmetry|].
    split; [reflexivity|]. split; [intros _; repeat split | contradiction].
  - pose proof (head_tree_after_commit r0
                  (encode_total_words message (Z.of_nat n)) E)
      as (H1 & H2 & H3 & H4 & H5 & H6 & H7).
    exists (Some (length (objects r))),
           (snd (commit_ (encode_total_words message (Z.of_nat n)) r0)).
    split.
    { unfold commit_. change (index r0) with (files r).
      change (head_tree r0) with (head_tree r).
      destruct (decide (files r = head_tree r)); [contradiction|].
      reflexivity. }
    split; [split; [now rewrite H3, H4 | now rewrite H4, H2]|].
    split; [exact H3|]. split; [exact H5|]. split; [exact H2|].
    split; [exact H7|]. split; [contradiction|].
    intros _. split; [reflexivity|]. split; [exact H1|].
    exists n. split; [exact Hn | exact H6].
Qed.

(** ** Backup in general *)

Lemma backup_success r message now t r' :
  backup message now r = (Ok t, r') ->
  t = backupTagAt now
  /\ clean r'
  /\ files r' = files r
  /\ tags r !! t = None
  /\ (forall n, n <> t -> tags r' !! n = tags r !! n)
  /\ (forall b, head r <> OnBranch b -> branches r' !! b = branches r !! b)
  /\ exists c,
       head_commit r' = Some c
       /\ tags r' !! t = Some c
       /\ tree_at r' (Some c) = files r.
Proof.
  destruct (commitAll_effect r
              (or_default message (js "Backup: " ++ hd [] (split_chr 84 now))))
    as (h & r1 & Hc & Hclean & Hf & Ht & Hhead & Hb & _).
  unfold backup, bind. fold (backupTagAt now). rewrite Hc.
  rewrite createDraftTag_addTag. unfold addTag.
  destruct (tags r1 !! backupTagAt now) as [x|] eqn:Hx; [discriminate|].
  destruct (head_commit r1) as [c|] eqn:Hh; [|discriminate].
  intros [= <- <-]. split; [reflexivity|].
  split; [exact Hclean|]. split; [exact Hf|].
  split; [now rewrite <- Ht|]. split.
  { intros n Hn. cbn [tags]. rewrite lookup_insert_ne by congruence.
    now rewrite Ht. }
  split; [exact Hb|].
  exists c. split; [exact Hh|]. split; [apply lookup_insert_eq|].
  rewrite <- Hhead. unfold head_tree. now rewrite Hh.
Qed.

Lemma backup_tag_taken r message now x :
  tags r !! backupTagAt now = Some x ->
  exists r',
    backup message now r = (Err (TagExists (backupTagAt now)), r')
    /\ clean r'
    /\ files r' = files r
    /\ tags r' = tags r
    /\ head_tree r' = files r
    /\ (files r = head_tree r -> objects r' = objects r)
    /\ (files r <> head_tree r ->
        length (objects r') = S (length (objects r))
        /\ head_commit r' = Some (length (objects r))).
Proof.
  intros Hx.
  destruct (commitAll_effect r
              (or_default message (js "Backup: " ++ hd [] (split_chr 84 now))))
    as (h & r1 & Hc & Hclean & Hf & Ht & Hhead & _ & Hsame & Hnew).
  exists r1. split.
  { unfold backup, bind. fold (backupTagAt now). rewrite Hc.
    rewrite createDraftTag_addTag. unfold addTag. now rewrite Ht, Hx. }
  split; [exact Hclean|]. split; [exact Hf|]. split; [exact Ht|].
  split; [exact Hhead|]. split.
  - intros E. now destruct (Hsame E) as (_ & Ho & _).
  - intros E. destruct (Hnew E) as (_ & Hh & n & _ & Ho).
    split; [|exact Hh]. rewrite Ho, length_app. simpl. lia.
Qed.

(** ** Tags without a commit *)

Lemma createDraftTag_effect r name :
  match tags r !! name, head_commit r with
  | Some _, _ => createDraftTag name r = (Err (TagExists name), r)
  | None, None => createDraftTag name r = (Err NoHeadCommit, r)
  | None, Some c => createDraftTag name r = (Ok (), with_tag r name c)
  end.
Proof.
  rewrite createDraftTag_addTag. unfold addTag, with_tag.
  destruct (tags r !! name); [reflexivity|].
  destruct (head_commit r); reflexivity.
Qed.

(** ** Restoring twice *)

Lemma restore_again other r tag c x :
  clean r ->
  resolve r tag = Some (Detached c) ->
  branches r !! (js "restore-" ++ tag) = Some x ->
  exists r',
    restoreFromBackup other tag r
    = (Err (BranchExists (js "restore-" ++ tag)), r')
    /\ head r' = Detached c
    /\ branches r' = branches r
    /\ tags r' = tags r
    /\ files r' = tree_at r (Some c).
Proof.
  intros [Hc1 Hc2] Hr Hx. unfold restoreFromBackup, bind, checkout.
  rewrite Hr. cbn [target_commit].
  destruct (decide _) as [Hs|Hs].
  - unfold checkoutLocalBranch. cbn [branches]. rewrite Hx.
    eexists. split; [reflexivity|]. cbn [head branches tags files].
    repeat split. rewrite Hc1, Hc2. apply switch_tree_clean.
  - exfalso. apply Hs. intros p _. right. rewrite Hc1, Hc2. now split.
Qed.

Lemma restore_then_clean other r tag c r' :
  clean r ->
  resolve r tag = Some (Detached c) ->
  restoreFromBackup other tag r = (Ok (), r') ->
  clean r'
  /\ resolve r' tag = Some (Detached c)
  /\ branches r' !! (js "restore-" ++ tag) = Some c
  /\ head r' = OnBranch (js "restore-" ++ tag)
  /\ files r' = tree_at r' (Some c).
Proof.
  intros [Hc1 Hc2] Hr. pose proof (resolve_tag _ _ _ Hr) as [Ht Hn].
  unfold restoreFromBackup, bind, checkout. rewrite Hr. cbn [target_commit].
  destruct (decide _) as [Hs|Hs]; [|discriminate].
  unfold checkoutLocalBranch. cbn [branches head_commit head].
  destruct (branches r !! (js "restore-" ++ tag)) eqn:Hb; [discriminate|].
  intros [= <-].
  assert (Hne : js "restore-" ++ tag <> tag).
  { intros E. apply (f_equal length) in E. rewrite length_app in E.
    simpl in E. lia. }
  split; [|split; [|split; [|split]]].
  - unfold clean, head_tree, head_commit, tree_at.
    cbn [files index head branches objects].
    rewrite lookup_insert_eq, Hc1, Hc2, !switch_tree_clean. now split.
  - unfold resolve. cbn [branches tags].
    rewrite lookup_insert_ne by exact Hne. now rewrite Hn, Ht.
  - cbn [branches]. apply lookup_insert_eq.
  - reflexivity.
  - cbn [files]. rewrite Hc1, Hc2, switch_tree_clean. reflexivity.
Qed.

(** ** A chapter commit takes the whole index *)


(** ** Chapter branches *)

Lemma replace_ws_go_no_space b s :
  Forall (fun c => is_space c = false) (replace_ws_go b s).
Proof.
  revert b. induction s as [|c s IH]; intros b; cbn [replace_ws_go];
    [constructor|].
  destruct (is_space c) eqn:E.
  - destruct b; [apply IH | constructor; [reflexivity | apply IH]].
  - constructor; [exact E | apply IH].
Qed.

Lemma branchChapter_effect lower name r r' :
  branchChapter lower name r = (Ok (), r') ->
  head r' = OnBranch (chapterBranchName lower name)
  /\ branches r !! chapterBranchName lower name = None
  /\ branches r' !! chapterBranchName lower name = head_commit r
  /\ (forall b, b <> chapterBranchName lower name ->
        branches r' !! b = branches r !! b)
  /\ files r' = files r /\ index r' = index r
  /\ objects r' = objects r /\ tags r' = tags r.
Proof.
  unfold branchChapter, checkoutLocalBranch.
  destruct (branches r !! chapterBranchName lower name) eqn:Hb; [discriminate|].
  destruct (head_commit r) as [c|] eqn:Hh; intros [= <-];
    cbn [head branches files index objects tags]; repeat split; auto.
  - apply lookup_insert_eq.
  - intros b Hne. now rewrite lookup_insert_ne.
Qed.

Lemma branchChapter_collision lower a b r c r1 :
  chapterBranchName lower a = chapterBranchName lower b ->
  head_commit r = Some c ->
  branchChapter lower a r = (Ok (), r1) ->
  branchChapter lower b r1
  = (Err (BranchExists (chapterBranchName lower a)), r1).
Proof.
  intros E Hh H. pose proof (branchChapter_effect _ _ _ _ H) as (_ & _ & H3 & _).
  rewrite Hh in H3. unfold branchChapter, checkoutLocalBranch.
  rewrite <- E, H3. reflexivity.
Qed.

(** ** Merging a chapter *)

Lemma mergeChapter_no_main merge other chapterBranch r :
  resolve r (js "main") = None ->
  other (js "main") r = None ->
  index r !! js "main" = None ->
  mergeChapter merge other chapterBranch r
  = (Err (PathspecNoMatch (js "main")), r).
Proof.
  intros H Ho Hi. unfold mergeChapter, bind, checkout. now rewrite H, Ho, Hi.
Qed.

Lemma mergeChapter_on_main merge other chapterBranch r c :
  clean r ->
  branches r !! js "main" = Some c ->
  exists r1,
    mergeChapter merge other chapterBranch r = merge [chapterBranch] r1
    /\ head r1 = OnBranch (js "main")
    /\ branches r1 = branches r /\ tags r1 = tags r /\ objects r1 = objects r
    /\ files r1 = tree_at r (Some c).
Proof.
  intros [Hc1 Hc2] Hb. unfold mergeChapter, bind, checkout, resolve.
  rewrite Hb. cbn [target_commit]. rewrite Hb.
  destruct (decide _) as [Hs|Hs].
  - eexists. split; [reflexivity|]. cbn [head branches tags objects files].
    repeat split. rewrite Hc1, Hc2. apply switch_tree_clean.
  - exfalso. apply Hs. intros p _. right. rewrite Hc1, Hc2. now split.
Qed.

(** When nothing but a tracked file is named [main], the checkout is a
    path checkout: HEAD stays where it is and the merge runs there. *)
Lemma mergeChapter_main_file merge other chapterBranch r content :
  resolve r (js "main") = None ->
  other (js "main") r = None ->
  index r !! js "main" = Some content ->
  mergeChapter merge other chapterBranch r
  = merge [chapterBranch]
      (mkRepo (<[js "main" := content]> (files r)) (index r) (objects r)
              (branches r) (tags r) (head r)).
Proof.
  intros H Ho Hi. unfold mergeChapter, bind, checkout. now rewrite H, Ho, Hi.
Qed.

(** ** Diff estimates *)

Lemma round_div5 x :
  js_round (js_div x 5) = Fin (inject_Z ((x * 2 + 5) / 10)).
Proof.
  unfold js_round, js_div. change (5 =? 0) with false. cbv iota.
  do 2 f_equal. unfold Qfloor, Qplus, Qdiv, Qmult, Qinv, inject_Z.
  cbn [Qnum Qden]. change (Z.pos (1 * 5 * 2)) with 10.
  f_equal. change (Z.pos (1 * 5)) with 5. lia.
Qed.

Lemma round_div5_bounds x :
  5 * ((x * 2 + 5) / 10) - 2 <= x <= 5 * ((x * 2 + 5) / 10) + 2.
Proof.
  pose proof (Z.div_mod (x * 2 + 5) 10 ltac:(lia)).
  pose proof (Z.mod_pos_bound (x * 2 + 5) 10 ltac:(lia)). lia.
Qed.

(** ** The file list of a comparison *)

Lemma split_chr_go_line sep cur n s :
  Forall (fun c => c <> sep) n ->
  split_chr_go sep cur (n ++ sep :: s) = (cur ++ n) :: split_chr_go sep [] s.
Proof.
  intros H. revert cur. induction H as [|c n Hc _ IH]; intros cur.
  - cbn [app split_chr_go]. rewrite N.eqb_refl, app_nil_r. reflexivity.
  - cbn [app split_chr_go].
    destruct (N.eqb_spec c sep) as [E|E]; [contradiction|].
    rewrite IH, <- app_assoc. reflexivity.
Qed.

Lemma split_chr_lines sep names :
  Forall (fun n => Forall (fun c => c <> sep) n) names ->
  split_chr sep (concat (map (fun n => n ++ [sep]) names)) = names ++ [[]].
Proof.
  unfold split_chr. induction 1 as [|n names Hn _ IH]; [reflexivity|].
  cbn [map concat]. rewrite <- app_assoc. cbn [app].
  rewrite split_chr_go_line by exact Hn. now rewrite IH.
Qed.

Lemma filter_nonempty_lines (names : list (list N)) :
  Forall (fun n => n <> []) names ->
  filter (fun f => f <> []) (names ++ [[]]) = names.
Proof.
  induction 1 as [|n names Hn _ IH]; cbn [app].
  - now rewrite filter_cons_False by auto.
  - rewrite filter_cons_True by exact Hn. now rewrite IH.
Qed.

(** ** Repository bootstrap *)

Lemma initialize_plain defaultBranch fs :
  initialize defaultBranch (Plain fs)
  = (Ok (),
     Versioned
       (mkRepo (<[js ".gitignore" := gitignoreContent]> fs)
          {[js ".gitignore" := gitignoreContent]}
          [mkCommit (js "Initial commit: Writer project setup")
             {[js ".gitignore" := gitignoreContent]} None]
          {[defaultBranch := O]} ∅ (OnBranch defaultBranch))).
Proof.
  unfold initialize, bind, createGitignore, init, add, set_index.
  cbn [files index objects branches tags head].
  rewrite lookup_insert_eq. unfold commit_.
  cbn [files index objects branches tags head].
  destruct (decide _) as [E|E].
  - exfalso. apply (f_equal (fun m => m !! js ".gitignore")) in E.
    rewrite lookup_insert_eq in E. unfold head_tree, head_commit in E.
    cbn [head branches tree_at] in E. rewrite lookup_empty in E.
    cbn [tree_at] in E. rewrite lookup_empty in E. discriminate.
  - unfold advance, head_commit. cbn [head branches files index objects tags].
    rewrite lookup_empty. reflexivity.
Qed.

(** ** Credentials *)

Lemma trim_start_head s c s' : trim_start s = c :: s' -> is_space c = false.
Proof.
  induction s as [|x s IH]; cbn [trim_start]; [discriminate|].
  destruct (is_space x) eqn:E; [exact IH | now intros [= <- _]].
Qed.

Lemma trim_start_suffix s : exists pre, s = pre ++ trim_start s.
Proof.
  induction s as [|x s [pre IH]]; cbn [trim_start]; [now exists []|].
  destruct (is_space x); [|now exists []].
  exists (x :: pre). cbn [app]. now rewrite <- IH.
Qed.

Lemma trim_ends s :
  (forall c s', trim s = c :: s' -> is_space c = false)
  /\ (forall c s', trim s = s' ++ [c] -> is_space c = false).
Proof.
  unfold trim. split.
  - intros c s' H.
    destruct (trim_start_suffix (rev (trim_start s))) as [pre Hpre].
    set (t := trim_start (rev (trim_start s))) in *.
    apply (f_equal (@rev N)) in Hpre. rewrite rev_involutive, rev_app_distr in Hpre.
    rewrite H in Hpre. cbn [app] in Hpre.
    now apply trim_start_head in Hpre.
  - intros c s' H. apply (f_equal (@rev N)) in H.
    rewrite rev_involutive, rev_app_distr in H. cbn [rev app] in H.
    now apply trim_start_head in H.
Qed.

Lemma star_always {R : Type} (p : N -> bool) (k : list N -> option R) s :
  (forall s', k s' <> None) -> star p s k = k (skip p s).
Proof.
  intros Hk. induction s as [|c s IH]; cbn [star skip]; [reflexivity|].
  destruct (p c); [|reflexivity]. rewrite IH.
  destruct (k (skip p s)) eqn:E; [reflexivity | now apply Hk in E].
Qed.

Lemma tokenPattern_here s :
  rmatch tokenPattern s None (fun _ cap => cap)
  = match strip (js "GITHUB_TOKEN=") s with
    | Some rest =>
        match run is_dot rest with
        | [] => None
        | c :: v => Some (c :: v)
        end
    | None => None
    end.
Proof.
  unfold tokenPattern. rewrite rmatch_cat, rmatch_lits.
  destruct (strip (js "GITHUB_TOKEN=") s) as [rest|]; [|reflexivity].
  rewrite rmatch_grp, rmatch_plus.
  destruct rest as [|c rest]; [reflexivity|]. cbn [run].
  destruct (is_dot c) eqn:E; [|reflexivity].
  rewrite star_always by discriminate. f_equal.
  change (c :: rest) with ([c] ++ rest) at 2.
  replace (length (c :: rest) - length (skip is_dot rest))%nat
    with (length [c] + (length rest - length (skip is_dot rest)))%nat.
  - rewrite take_app_add. cbn [app]. now rewrite take_run.
  - pose proof (f_equal length (run_skip is_dot rest)) as El.
    rewrite length_app in El. cbn [length]. lia.
Qed.

Lemma re_search_first_occurrence s acc pre rest c v :
  find_first (js "GITHUB_TOKEN=") s acc = Some (pre, rest) ->
  run is_dot rest = c :: v ->
  re_search_with tokenPattern s = Some (c :: v).
Proof.
  revert acc. induction s as [|x s IH]; intros acc; cbn [find_first re_search_with];
    rewrite tokenPattern_here.
  - destruct (strip (js "GITHUB_TOKEN=") []) as [a|] eqn:E; [|discriminate].
    intros [= _ ->] Hr. now rewrite Hr.
  - destruct (strip (js "GITHUB_TOKEN=") (x :: s)) as [a|] eqn:E.
    + intros [= _ ->] Hr. now rewrite Hr.
    + intros H Hr. now apply (IH _ H).
Qed.

(** ** Remotes *)

Lemma substitution_plain matched before after repl :
  Forall (fun c => c <> 36%N) repl ->
  substitution matched before after repl = repl.
Proof.
  induction 1 as [|c repl Hc _ IH]; cbn [substitution]; [reflexivity|].
  destruct (N.eqb_spec c 36); [contradiction|]. now rewrite IH.
Qed.

Lemma strip_app_exact l s : strip l (l ++ s) = Some s.
Proof.
  induction l as [|c l IH]; cbn [strip app]; [reflexivity|].
  now rewrite N.eqb_refl.
Qed.

Lemma authenticatedUrl_embeds c t path :
  Forall (fun x => x <> 36%N) (c :: t) ->
  authenticatedUrl (js "https://github.com/" ++ path) (Some (c :: t))
  = js "https://" ++ (c :: t) ++ js "@github.com/" ++ path.
Proof.
  intros H. unfold authenticatedUrl, startsWith, js_replace.
  rewrite strip_app_exact.
  assert (find_first (js "https://github.com/")
            (js "https://github.com/" ++ path) [] = Some ([], path)) as ->.
  { destruct (js "https://github.com/" ++ path) eqn:E;
      cbn [find_first]; rewrite <- ?E, strip_app_exact; reflexivity. }
  cbn [app]. rewrite substitution_plain.
  - rewrite <- (app_assoc (js "https://")). f_equal. cbn [app]. f_equal.
    now rewrite <- app_assoc.
  - apply Forall_app. split; [repeat constructor; discriminate|].
    change (Forall (fun x => x <> 36%N) ((c :: t) ++ js "@github.com/")).
    apply Forall_app. split; [exact H | repeat constructor; discriminate].
Qed.

Lemma authenticatedUrl_verbatim repoUrl token :
  token = None \/ token = Some []
  \/ startsWith repoUrl (js "https://github.com/") = false ->
  authenticatedUrl repoUrl token = repoUrl.
Proof.
  unfold authenticatedUrl. intros [-> | [-> | H]]; try reflexivity.
  destruct token as [[|c t]|]; try reflexivity. now rewrite H.
Qed.

Lemma configureGitHub_sets_origin repoUrl token s :
  configureGitHub repoUrl token s
  = (inr (), <[js "origin" := authenticatedUrl repoUrl token]> s).
Proof.
  unfold configureGitHub, Remote.setUrl, Remote.addRemote.
  destruct (s !! js "origin") as [u|] eqn:E.
  - rewrite bool_decide_eq_true_2 by eauto. reflexivity.
  - rewrite bool_decide_eq_false_2 by (intros [x Hx]; discriminate). reflexivity.
Qed.

(** ** The fields of a log line *)

Lemma line_fields_cut h d m rest :
  Forall (fun c => c <> 124%N) h ->
  Forall (fun c => c <> 124%N) d ->
  Forall (fun c => c <> 124%N) m ->
  line_fields (h ++ 124%N :: d ++ 124%N :: m ++ 124%N :: rest) = Some (d, m).
Proof.
  intros Hh Hd Hm. unfold line_fields, split_chr.
  rewrite split_chr_go_line by exact Hh.
  rewrite split_chr_go_line by exact Hd.
  rewrite split_chr_go_line by exact Hm. reflexivity.
Qed.

(** ** The log without the library's marks *)

Lemma split_str_go_no_mark sep cur s :
  242%N ∈ sep -> no_mark s -> split_str_go sep O cur s = [cur ++ s].
Proof.
  intros Hsep H. revert cur.
  induction H as [|c s Hc Hs IH]; intros cur; cbn [split_str_go].
  - now rewrite app_nil_r.
  - rewrite bool_decide_eq_false_2.
    + rewrite IH. now rewrite <- app_assoc.
    + intros E. rewrite <- E in Hsep.
      apply elem_of_take in Hsep as (i & Hi & _).
      apply list_elem_of_lookup_2 in Hi.
      apply elem_of_cons in Hi as [Hi|Hi]; [congruence|].
      unfold no_mark in Hs. rewrite Forall_forall in Hs.
      now apply (Hs _ Hi).
Qed.

Lemma split_str_no_mark sep s :
  242%N ∈ sep -> no_mark s -> split_str sep s = [s].
Proof. intros H1 H2. unfold split_str. now rewrite split_str_go_no_mark. Qed.

Lemma trim_start_Forall (P : N -> Prop) s :
  Forall P s -> Forall P (trim_start s).
Proof.
  intros H. destruct (trim_start_suffix s) as [pre E].
  rewrite E in H. now apply Forall_app in H as [_ H].
Qed.

Lemma trim_Forall (P : N -> Prop) s : Forall P s -> Forall P (trim s).
Proof.
  intros H. unfold trim. apply Forall_rev, trim_start_Forall, Forall_rev.
  now apply trim_start_Forall.
Qed.

Lemma parse_log_no_mark stdOut :
  no_mark stdOut ->
  parse_log stdOut
  = match trim stdOut with
    | [] => []
    | c :: t => [mkLogLine (c :: t) [] []]
    end.
Proof.
  intros H. unfold parse_log.
  assert (Ht : no_mark (trim stdOut)) by now apply trim_Forall.
  rewrite split_str_no_mark; [|unfold START_BOUNDARY; set_solver|exact Ht].
  destruct (trim stdOut) as [|c t] eqn:E.
  - rewrite filter_cons_False by (intros X; now apply X). reflexivity.
  - rewrite filter_cons_True by discriminate. rewrite filter_nil. cbn [map].
    rewrite (split_str_no_mark COMMIT_BOUNDARY (c :: t));
      [|unfold COMMIT_BOUNDARY; set_solver|exact Ht].
    cbn [hd].
    rewrite (split_str_no_mark SPLITTER (c :: t));
      [|unfold SPLITTER; set_solver|exact Ht].
    reflexivity.
Qed.

Lemma log_hashes_no_mark stdOut :
  no_mark stdOut ->
  log_hashes stdOut
  = match trim stdOut with
    | [] => []
    | c :: t => [c :: t]
    end.
Proof.
  intros H. unfold log_hashes. rewrite parse_log_no_mark by exact H.
  now destruct (trim stdOut).
Qed.

(** ** The subject of a message *)

Lemma split_chr_go_Forall (P : N -> Prop) sep cur s :
  Forall P cur -> Forall P s -> Forall (Forall P) (split_chr_go sep cur s).
Proof.
  intros Hc Hs. revert cur Hc.
  induction Hs as [|c s Hc' Hs IH]; intros cur Hc; cbn [split_chr_go].
  - now constructor.
  - destruct (c =? sep)%N.
    + constructor; [exact Hc|]. now apply IH.
    + apply IH. apply Forall_app. split; [exact Hc|]. now constructor.
Qed.

Lemma drop_blank_Forall (P : N -> Prop) s :
  Forall P s -> Forall P (drop_blank s).
Proof.
  induction 1 as [|c s Hc Hs IH]; cbn [drop_blank]; [constructor|].
  destruct (is_blank c); [exact IH | now constructor].
Qed.

Lemma skip_blank_lines_Forall (Q : list N -> Prop) ls :
  Forall Q ls -> Forall Q (skip_blank_lines ls).
Proof.
  induction 1 as [|l ls Hl Hls IH]; cbn [skip_blank_lines]; [constructor|].
  destruct l; [exact IH | now constructor].
Qed.

Lemma first_paragraph_Forall (Q : list N -> Prop) ls :
  Forall Q ls -> Forall Q (first_paragraph ls).
Proof.
  induction 1 as [|l ls Hl Hls IH]; cbn [first_paragraph]; [constructor|].
  destruct l; [constructor | now constructor].
Qed.

Lemma join_str_Forall (P : N -> Prop) sep ls :
  Forall P sep -> Forall (Forall P) ls -> Forall P (join_str sep ls).
Proof.
  intros Hsep. induction 1 as [|l ls Hl Hls IH]; cbn [join_str]; [constructor|].
  destruct ls as [|l' ls']; [exact Hl|].
  apply Forall_app. split; [exact Hl|]. apply Forall_app. now split.
Qed.

Lemma subject_no_mark message : no_mark message -> no_mark (subject message).
Proof.
  intros H. unfold subject, no_mark. apply join_str_Forall.
  - repeat constructor. discriminate.
  - apply first_paragraph_Forall, skip_blank_lines_Forall.
    apply Forall_map.
    eapply Forall_impl; [apply split_chr_go_Forall; [constructor | exact H]|].
    intros l Hl. cbn beta. apply Forall_rev, drop_blank_Forall, Forall_rev.
    exact Hl.
Qed.

Lemma log_from_objects limit objs c :
  Forall (fun e => e.2 ∈ objs) (log_from limit objs c).
Proof.
  revert c. induction limit as [|limit IH]; intros c; cbn [log_from];
    [constructor|].
  destruct c as [i|]; [|constructor].
  destruct (objs !! i) as [ci|] eqn:E; [|constructor].
  constructor; [|apply IH]. cbn [snd]. now apply list_elem_of_lookup_2 in E.
Qed.

Lemma oneline_no_mark abbrev limit r :
  (forall c, no_mark (abbrev c)) ->
  Forall (fun ci => no_mark (c_message ci)) (objects r) ->
  no_mark (oneline abbrev limit r).
Proof.
  intros Ha Hm. unfold oneline, no_mark, log. apply Forall_concat, Forall_map.
  eapply Forall_impl; [apply log_from_objects|].
  intros e He. cbn beta. rewrite Forall_forall in Hm.
  apply Forall_app. split; [apply Ha|].
  apply Forall_app. split; [repeat constructor; discriminate|].
  apply Forall_app. split; [|repeat constructor; discriminate].
  apply subject_no_mark. now apply Hm.
Qed.

(** [getHistory] never sees a message: all of git's output is the [hash]
    of one record. *)
Lemma getHistory_records abbrev limit r c :
  head_commit r = Some c ->
  (forall n, no_mark (abbrev n)) ->
  Forall (fun ci => no_mark (c_message ci)) (objects r) ->
  getHistory abbrev limit r
  = (Ok (match trim (oneline abbrev limit r) with
         | [] => []
         | x :: t => [mkInfo (x :: t) [] None]
         end), r).
Proof.
  intros Hh Ha Hm. unfold getHistory. rewrite Hh.
  rewrite parse_log_no_mark by now apply oneline_no_mark.
  now destruct (trim (oneline abbrev limit r)).
Qed.

Lemma is_hex_no_mark s : Forall (fun c => is_hex c = true) s -> no_mark s.
Proof.
  intros H. eapply Forall_impl; [exact H|].
  intros c Hc ->. vm_compute in Hc. discriminate.
Qed.

(** ** Trimming a text that is guarded by code units that are not white space *)

Lemma trim_start_app_guard a c z :
  is_space c = false -> trim_start (a ++ c :: z) = trim_start a ++ c :: z.
Proof.
  intros Hc. induction a as [|x a IH]; cbn [app trim_start].
  - now rewrite Hc.
  - destruct (is_space x); [exact IH | reflexivity].
Qed.

Lemma trim_guard x a c y :
  is_space x = false -> is_space c = false ->
  trim (x :: a ++ c :: y) = x :: a ++ c :: trim_end y.
Proof.
  intros Hx Hc. unfold trim, trim_end. cbn [trim_start]. rewrite Hx.
  change (x :: a ++ c :: y) with ((x :: a) ++ c :: y).
  rewrite rev_app_distr. cbn [rev]. rewrite <- !app_assoc. cbn [app].
  rewrite trim_start_app_guard by exact Hc.
  rewrite rev_app_distr. cbn [rev]. rewrite rev_app_distr, rev_involutive.
  cbn [rev app]. rewrite <- !app_assoc. reflexivity.
Qed.

(** ** The history that the service really builds *)

Lemma join_lines_cons l ls :
  join_str [10%N] (l :: ls)
  = l ++ match ls with
         | [] => []
         | _ :: _ => 10%N :: join_str [10%N] ls
         end.
Proof. destruct ls; cbn [join_str app]; [now rewrite app_nil_r | reflexivity]. Qed.

Lemma pretty_output_no_mark window :
  Forall (fun e => no_mark e.1.1 /\ no_mark e.1.2 /\ no_mark e.2) window ->
  no_mark (pretty_output window).
Proof.
  intros H. unfold pretty_output, pretty_lines, no_mark. apply join_str_Forall.
  - repeat constructor. discriminate.
  - apply Forall_map. eapply Forall_impl; [exact H|].
    intros e (H1 & H2 & H3). cbn beta.
    apply Forall_app. split; [exact H1|].
    apply Forall_app. split; [repeat constructor; discriminate|].
    apply Forall_app. split; [exact H2|].
    apply Forall_app. split; [repeat constructor; discriminate | exact H3].
Qed.

Lemma line_fields_last h d m :
  Forall (fun c => c <> 124%N) h ->
  Forall (fun c => c <> 124%N) d ->
  Forall (fun c => c <> 124%N) m ->
  line_fields (h ++ 124%N :: d ++ 124%N :: m) = Some (d, m).
Proof.
  intros Hh Hd Hm. unfold line_fields, split_chr.
  rewrite split_chr_go_line by exact Hh.
  rewrite split_chr_go_line by exact Hd.
  assert (E : forall cur, split_chr_go 124 cur m = [cur ++ m]).
  { clear -Hm. induction Hm as [|c m Hc _ IH]; intros cur; cbn [split_chr_go].
    - now rewrite app_nil_r.
    - destruct (N.eqb_spec c 124) as [E|E]; [contradiction|].
      rewrite IH, <- app_assoc. reflexivity. }
  rewrite E. reflexivity.
Qed.

Lemma history_one_line line d m :
  line_fields line = Some (d, m) ->
  getWordCountHistory [line]
  = Ok [mkEntry (hd [] (split_chr 32 d))
          (count_or_zero (extractWordCountFromMessage m))
          (count_or_zero (extractWordCountFromMessage m))].
Proof.
  intros H. unfold getWordCountHistory. cbn [rev app].
  rewrite history_loop_entries by (repeat constructor; eauto).
  cbn [app entries_after]. unfold line_day, line_count. rewrite H.
  now rewrite Z.sub_0_r.
Qed.

Lemma history_at_most_one stdOut :
  no_mark stdOut ->
  match getWordCountHistory (log_hashes stdOut) with
  | Ok history => (length history <= 1)%nat
  | Err e => e = TypeError
  end.
Proof.
  intros H. rewrite log_hashes_no_mark by exact H.
  destruct (trim stdOut) as [|c t]; [cbn; lia|].
  unfold getWordCountHistory. cbn [rev app history_loop].
  destruct (split_chr 124 (c :: t)) as [|? [|? [|? ?]]]; cbn; try reflexivity; lia.
Qed.

Lemma trim_end_Forall (P : N -> Prop) s : Forall P s -> Forall P (trim_end s).
Proof.
  intros H. unfold trim_end. now apply Forall_rev, trim_start_Forall, Forall_rev.
Qed.

(** The one entry of a window of commits: the newest commit's day, and the
    count decoded from the third field of git's whole output. *)
Lemma history_of_window x h1 d1 s1 rest :
  is_space x = false ->
  Forall (fun e => no_mark e.1.1 /\ no_mark e.1.2 /\ no_mark e.2)
    ((x :: h1, d1, s1) :: rest) ->
  Forall (fun c => c <> 124%N) (x :: h1) ->
  Forall (fun c => c <> 124%N) d1 ->
  Forall (fun c => c <> 124%N) s1 ->
  Forall (fun c => c <> 124%N)
    match rest with
    | [] => []
    | e2 :: _ => e2.1.1
    end ->
  let message :=
    match rest with
    | [] => trim_end s1
    | e2 :: _ => s1 ++ 10%N :: e2.1.1
    end in
  getWordCountHistory (log_hashes (pretty_output ((x :: h1, d1, s1) :: rest)))
  = Ok [mkEntry (hd [] (split_chr 32 d1))
          (count_or_zero (extractWordCountFromMessage message))
          (count_or_zero (extractWordCountFromMessage message))].
Proof.
  intros Hx Hm Hh Hd Hs Hh2 message.
  rewrite log_hashes_no_mark by now apply pretty_output_no_mark.
  unfold pretty_output, pretty_lines. cbn [map fst snd].
  rewrite join_lines_cons.
  destruct rest as [|[[h2 d2] s2] rest'].
  - rewrite app_nil_r. cbn [app].
    replace (x :: h1 ++ 124%N :: d1 ++ 124%N :: s1)
      with (x :: (h1 ++ 124%N :: d1) ++ 124%N :: s1)
      by (now rewrite <- app_assoc).
    rewrite trim_guard by (exact Hx || reflexivity).
    apply history_one_line.
    rewrite <- app_assoc. cbn [app].
    change (x :: h1 ++ 124%N :: d1 ++ 124%N :: trim_end s1)
      with ((x :: h1) ++ 124%N :: d1 ++ 124%N :: trim_end s1).
    apply line_fields_last; [exact Hh | exact Hd | now apply trim_end_Forall].
  - cbn [map fst snd] in *. rewrite join_lines_cons. cbn [app].
    match goal with
    | |- context [(h2 ++ 124%N :: d2 ++ 124%N :: s2) ++ ?m] =>
        generalize m; intros more
    end.
    replace (x :: (h1 ++ 124%N :: d1 ++ 124%N :: s1)
               ++ 10%N :: (h2 ++ 124%N :: d2 ++ 124%N :: s2) ++ more)
      with (x :: (h1 ++ 124%N :: d1 ++ 124%N :: s1 ++ 10%N :: h2)
              ++ 124%N :: (d2 ++ 124%N :: s2 ++ more))
      by (repeat (rewrite <- app_assoc; cbn [app]); reflexivity).
    rewrite trim_guard by (exact Hx || reflexivity).
    apply history_one_line.
    replace (x :: (h1 ++ 124%N :: d1 ++ 124%N :: s1 ++ 10%N :: h2)
               ++ 124%N :: trim_end (d2 ++ 124%N :: s2 ++ more))
      with ((x :: h1) ++ 124%N :: d1 ++ 124%N :: (s1 ++ 10%N :: h2)
              ++ 124%N :: trim_end (d2 ++ 124%N :: s2 ++ more))
      by (cbn [app]; repeat (rewrite <- app_assoc; cbn [app]); reflexivity).
    apply line_fields_cut; [exact Hh | exact Hd |].
    apply Forall_app. split; [exact Hs|]. constructor; [discriminate|].
    exact Hh2.
Qed.

(** ** White space in a chapter name *)

Lemma replace_ws_go_word b w rest :
  Forall (fun c => is_space c = false) w ->
  w <> [] \/ b = false ->
  replace_ws_go b (w ++ rest) = w ++ replace_ws_go false rest.
Proof.
  intros H. revert b. induction H as [|c w Hc _ IH]; intros b Hb.
  - destruct Hb as [Hb| ->]; [contradiction | reflexivity].
  - cbn [app replace_ws_go]. rewrite Hc. f_equal. apply IH. now right.
Qed.

Lemma replace_ws_go_skip run rest :
  Forall (fun c => is_space c = true) run ->
  replace_ws_go true (run ++ rest) = replace_ws_go true rest.
Proof.
  induction 1 as [|c run Hc _ IH]; [reflexivity|].
  cbn [app replace_ws_go]. now rewrite Hc.
Qed.

Lemma replace_ws_go_after_run rest :
  match rest with
  | y :: _ => is_space y
  | [] => false
  end = false ->
  replace_ws_go true rest = replace_ws_go false rest.
Proof.
  destruct rest as [|y rest]; [reflexivity|].
  intros Hy. cbn [replace_ws_go]. now rewrite Hy.
Qed.

Lemma replace_ws_run c run rest :
  is_space c = true ->
  Forall (fun c => is_space c = true) run ->
  match rest with
  | y :: _ => is_space y
  | [] => false
  end = false ->
  replace_ws (c :: run ++ rest) = 45%N :: replace_ws rest.
Proof.
  intros Hc Hrun Hrest. unfold replace_ws. cbn [replace_ws_go]. rewrite Hc.
  f_equal. rewrite replace_ws_go_skip by exact Hrun.
  now apply replace_ws_go_after_run.
Qed.

(** ** What is left of a text after trimming *)

Lemma trim_start_nil s :
  trim_start s = [] -> Forall (fun c => is_space c = true) s.
Proof.
  induction s as [|c s IH]; cbn [trim_start]; [constructor|].
  destruct (is_space c) eqn:E; [|discriminate].
  intros H. constructor; [exact E | now apply IH].
Qed.

Lemma trim_nil s : trim s = [] -> Forall (fun c => is_space c = true) s.
Proof.
  unfold trim. intros H. apply (f_equal (@rev N)) in H.
  rewrite rev_involutive in H. cbn [rev] in H.
  apply trim_start_nil, Forall_rev in H. rewrite rev_involutive in H.
  destruct (trim_start s) as [|c t] eqn:E; [now apply trim_start_nil|].
  apply trim_start_head in E. apply Forall_cons in H as [H _]. congruence.
Qed.

Lemma trim_nonempty s c :
  c ∈ s -> is_space c = false -> exists x t, trim s = x :: t.
Proof.
  intros Hc Hs. destruct (trim s) as [|x t] eqn:E; [|eauto].
  apply trim_nil in E. rewrite Forall_forall in E. specialize (E c Hc).
  congruence.
Qed.

(** ** Commit ids *)

Lemma is_hex_not_space x : is_hex x = true -> is_space x = false.
Proof.
  unfold is_hex, is_digit. intros H.
  assert (Hr : (48 <= x <= 57 \/ 97 <= x <= 102)%N).
  { apply orb_prop in H as [H|H]; apply andb_prop in H as [H1 H2];
      apply N.leb_le in H1, H2; lia. }
  clear H. unfold is_space.
  repeat match goal with
  | |- context [(?a <=? x)%N] => let E := fresh in destruct (N.leb_spec a x) as [E|E]
  | |- context [(x <=? ?a)%N] => let E := fresh in destruct (N.leb_spec x a) as [E|E]
  | |- context [(x =? ?a)%N] => let E := fresh in destruct (N.eqb_spec x a) as [E|E]
  end; simpl; try reflexivity; lia.
Qed.

Lemma hex_ids_no_mark abbrev : hex_ids abbrev -> forall n, no_mark (abbrev n).
Proof. intros H n. apply is_hex_no_mark, H. Qed.

Lemma abbrev_sample_hex : hex_ids abbrev_sample.
Proof.
  intros c. unfold abbrev_sample. split; [discriminate|].
  apply Forall_app. split.
  - repeat constructor.
  - eapply Forall_impl; [apply uint_units_digits|].
    intros x Hx. unfold is_hex. now rewrite Hx.
Qed.

(** The one record of [getHistory] when HEAD has a commit. *)
Lemma getHistory_one_record abbrev limit r c ci :
  head_commit r = Some c ->
  objects r !! c = Some ci ->
  hex_ids abbrev ->
  Forall (fun ci => no_mark (c_message ci)) (objects r) ->
  exists hash,
    getHistory abbrev (S limit) r = (Ok [mkInfo hash [] None], r).
Proof.
  intros Hh Ho Ha Hm.
  rewrite (getHistory_records abbrev (S limit) r c Hh (hex_ids_no_mark _ Ha) Hm).
  destruct (Ha c) as [Hne Hhex].
  destruct (abbrev c) as [|x a] eqn:Ea; [contradiction|].
  apply Forall_cons in Hhex as [Hx _].
  destruct (trim_nonempty (oneline abbrev (S limit) r) x) as (y & t & E).
  - unfold oneline, log. cbn [log_from]. rewrite Hh, Ho. cbn [map concat fst snd].
    rewrite Ea. apply elem_of_app. left. apply elem_of_app. left.
    apply elem_of_cons. now left.
  - now apply is_hex_not_space.
  - rewrite E. eauto.
Qed.

(** * The claims *)

(** C9.  [countWords] splits its input on runs of white space and counts the
    non-empty pieces: it agrees on every text with the number of maximal
    runs of non-white-space code units (a natural number), and gives 0 on
    the empty text, 0 on three spaces and 3 on "one two  three". *)
Theorem countWords_counts_tokens :
  (forall text, countWords text = count_tokens text)
  /\ countWords (js "") = 0%nat
  /\ countWords (js "   ") = 0%nat
  /\ countWords (js "one two  three") = 3%nat.
Proof.
  split.
  - intros text. unfold countWords, count_tokens, split_ws.
    apply (proj2 (countWords_go_tokens text)).
  - repeat split; reflexivity.
Qed.

(** C3.  Round trip of the codec: for every count [n] that is a
    non-negative safe integer ([n < 2^53], the range in which a JavaScript
    number is the integer it stands for, and which holds every count that
    the service computes) and every text [S] in which the decoding pattern
    has no match, decoding [S ++ " (n words)"] and decoding
    [S ++ " (n total words)"] both yield [n]; and decoding a text without a
    match yields no value (the decoder is a total function, it cannot
    throw). *)
Theorem decode_encode_round_trip :
  (forall S n, safe_count n -> re_search S = None ->
     extractWordCountFromMessage (encode_words S n) = Some n
     /\ extractWordCountFromMessage (encode_total_words S n) = Some n)
  /\ (forall message, re_search message = None ->
        extractWordCountFromMessage message = None).
Proof.
  split.
  - intros S n [Hn _] HS. split.
    + now apply decode_encode_words.
    + now apply decode_encode_total_words.
  - intros message H. unfold extractWordCountFromMessage. now rewrite H.
Qed.

Lemma decode_encode_round_trip_witness :
  (extractWordCountFromMessage (encode_words (js "Fix typo") 1234) = Some 1234
   /\ extractWordCountFromMessage (encode_total_words (js "Fix typo") 1234)
      = Some 1234)
  /\ extractWordCountFromMessage (js "Fix typo") = None.
Proof.
  split.
  - apply (proj1 decode_encode_round_trip (js "Fix typo") 1234);
      [split; [lia | reflexivity] | vm_compute; reflexivity].
  - apply (proj2 decode_encode_round_trip (js "Fix typo")).
    vm_compute; reflexivity.
Defined.

(** C7 fails on the code.  For a window of three commits git prints three
    lines, but the format that [getWordCountHistory] passes replaces the
    one in which the library marks the commits, so [log.all] has a single
    element whose [hash] holds the three lines.  The loop runs once: the
    history is the one entry of the newest commit, with its own count as
    [change].  The entries that the claim describes, one per commit and
    oldest first, are the three of [entries_after]. *)
Theorem getWordCountHistory_skips_commits :
  log_sample = [pretty_output window_sample]
  /\ getWordCountHistory log_sample = Ok [mkEntry (js "2025-01-03") 30 30]
  /\ entries_after 0 (rev (pretty_lines window_sample))
     = [mkEntry (js "2025-01-01") 10 10;
        mkEntry (js "2025-01-02") 0 (-10);
        mkEntry (js "2025-01-03") 30 30].
Proof. repeat split; vm_compute; reflexivity. Qed.

(** C8.  The progress renderer returns a string and never throws: on the
    empty history it returns the one message "No writing history found.";
    on every history whose counts are not negative, which is every history
    that [getWordCountHistory] returns, it returns a non-empty chart; and
    when all counts are zero every bar is empty (the quotient by the zero
    maximum is infinite, zero times it is not a number, and a repeat count
    that is not a number is taken as 0). *)
Theorem visualizeProgress_total :
  render [] = Ok (js "No writing history found.")
  /\ (forall history,
        Forall (fun e => 0 <= h_wordCount e) history ->
        exists out, render history = Ok out /\ out <> [])
  /\ (forall log_all history,
        getWordCountHistory log_all = Ok history ->
        exists out, visualizeProgress log_all = Ok out /\ out <> [])
  /\ (forall history,
        history <> [] ->
        Forall (fun e => h_wordCount e = 0) history ->
        render history
        = Ok (chart_header ++ concat (map (fun e => chart_line e []) history))).
Proof.
  split; [reflexivity|]. split; [exact render_nonneg|]. split.
  - intros log_all history H. unfold visualizeProgress. rewrite H.
    apply render_nonneg. unfold getWordCountHistory in H.
    eapply history_loop_nonneg; [|exact H]. constructor.
  - exact render_zero.
Qed.

Lemma visualizeProgress_total_witness :
  (exists out, render history_zero = Ok out /\ out <> [])
  /\ (exists out, visualizeProgress log_sample = Ok out /\ out <> [])
  /\ render history_zero
     = Ok (chart_header ++ concat (map (fun e => chart_line e []) history_zero)).
Proof.
  destruct visualizeProgress_total as (_ & H1 & H2 & H3).
  split; [|split].
  - apply H1. repeat constructor; vm_compute; discriminate.
  - apply (H2 log_sample (match getWordCountHistory log_sample with
                          | Ok h => h | Err _ => [] end)).
    vm_compute; reflexivity.
  - apply H3; [discriminate|]. repeat constructor.
Defined.

(** C5, as the code has it.  Restoring a snapshot leaves the branch that
    was checked out alone, when the name of the tag is not the name of a
    branch as well.  Let HEAD be on branch [b] and let the name [tag]
    designate a snapshot tag on commit [c] and no branch.  Whenever
    [restoreFromBackup tag] completes, branch [b] still points to the
    commit it pointed to, it is not the current branch, and the current
    branch is [restore-<tag>], a branch that did not exist before and now
    points to the tag's commit; no other branch, no tag and no commit is
    changed, and from a clean working tree the project files are those of
    the tag's commit.  The call does complete from a clean working tree
    when no branch [restore-<tag>] exists yet. *)
Theorem restoreFromBackup_keeps_branch other r tag c b cb :
  head r = OnBranch b ->
  branches r !! b = Some cb ->
  resolve r tag = Some (Detached c) ->
  (forall r',
     restoreFromBackup other tag r = (Ok (), r') ->
     branches r' !! b = Some cb
     /\ head r' = OnBranch (js "restore-" ++ tag)
     /\ js "restore-" ++ tag <> b
     /\ branches r !! (js "restore-" ++ tag) = None
     /\ branches r' !! (js "restore-" ++ tag) = Some c
     /\ (forall b', b' <> js "restore-" ++ tag ->
           branches r' !! b' = branches r !! b')
     /\ tags r' = tags r
     /\ objects r' = objects r
     /\ (clean r -> files r' = tree_at r (Some c)))
  /\ (clean r ->
      branches r !! (js "restore-" ++ tag) = None ->
      exists r', restoreFromBackup other tag r = (Ok (), r')).
Proof.
  intros Hh Hb Hr. apply resolve_tag in Hr as [Ht Hn]. split.
  - intros r'. now apply restore_frame.
  - intros Hc Hnew. now apply (restore_completes other r tag c).
Qed.

Lemma restoreFromBackup_keeps_branch_witness :
  let tag := js "backup-2025-01-15" in
  let r' := snd (restoreFromBackup no_other_names tag repo_tagged) in
  restoreFromBackup no_other_names tag repo_tagged = (Ok (), r')
  /\ branches r' !! js "main" = Some 1%nat
  /\ head r' = OnBranch (js "restore-backup-2025-01-15")
  /\ branches r' !! js "restore-backup-2025-01-15" = Some O
  /\ files r' = tree_setup.
Proof.
  intros tag r'.
  assert (H : restoreFromBackup no_other_names tag repo_tagged = (Ok (), r'))
    by (vm_compute; reflexivity).
  split; [exact H|].
  destruct (restoreFromBackup_keeps_branch no_other_names repo_tagged tag O
              (js "main") 1%nat)
    as [Hframe _]; [reflexivity | reflexivity | vm_compute; reflexivity |].
  destruct (Hframe r' H) as (H1 & H2 & _ & _ & H5 & _ & _ & _ & H9).
  split; [exact H1|]. split; [exact H2|]. split; [exact H5|].
  change tree_setup with (tree_at repo_tagged (Some O)).
  apply H9. split; vm_compute; reflexivity.
Defined.

(** C5 as stated fails for a tag whose name is also the name of a branch.
    In [repo_both] the tag [main] is on the first commit and the branch
    [main], which is checked out, on the second.  [restoreFromBackup] hands
    the bare name to [git checkout], which takes it for the branch: the
    new branch [restore-main] is on the second commit and the project
    files are those of the branch, not the tag's content. *)
Lemma restoreFromBackup_branch_named_as_tag_counterexample :
  tags repo_both !! js "main" = Some O
  /\ exists r',
       restoreFromBackup no_other_names (js "main") repo_both = (Ok (), r')
       /\ head r' = OnBranch (js "restore-main")
       /\ branches r' !! js "restore-main" = Some 1%nat
       /\ files r' = tree_at repo_both (Some 1%nat)
       /\ tree_at repo_both (Some 1%nat) <> tree_at repo_both (Some O).
Proof.
  split; [vm_compute; reflexivity|].
  eexists. split; [vm_compute; reflexivity|].
  split; [reflexivity|]. split; [vm_compute; reflexivity|].
  split; [vm_compute; reflexivity|].
  apply (bool_decide_unpack _). vm_compute. exact I.
Qed.

(** C6, as the code has it.  The service has no error of its own for an
    unknown snapshot: the name goes to [git checkout].  When the name is
    neither a branch nor a tag and means nothing else to the engine, two
    cases remain.  If it is not the path of a tracked file, the engine
    reports that the pathspec matches nothing, the service passes that
    error on, and the repository is left as it was, so no branch (in
    particular no [restore-<tag>] branch) is created.  If it is the path of
    a tracked file, the checkout does not fail, it restores the file from
    the index; and when the call completes, the branch [restore-<tag>] has
    been created at HEAD. *)
Theorem restoreFromBackup_unknown_tag other r tag :
  resolve r tag = None ->
  other tag r = None ->
  (index r !! tag = None ->
   restoreFromBackup other tag r = (Err (PathspecNoMatch tag), r))
  /\ (forall content,
        index r !! tag = Some content ->
        checkout other tag r
        = (Ok (),
           mkRepo (<[tag := content]> (files r)) (index r) (objects r)
                  (branches r) (tags r) (head r))
        /\ forall r',
             restoreFromBackup other tag r = (Ok (), r') ->
             head r' = OnBranch (js "restore-" ++ tag)
             /\ branches r !! (js "restore-" ++ tag) = None
             /\ branches r' !! (js "restore-" ++ tag) = head_commit r
             /\ files r' = <[tag := content]> (files r)
             /\ index r' = index r /\ tags r' = tags r
             /\ objects r' = objects r).
Proof.
  intros Hr Ho. split.
  - intros Hi. apply resolve_none in Hr as [Hb Ht].
    now apply restoreFromBackup_missing.
  - intros content Hi.
    assert (Hc : checkout other tag r
                 = (Ok (),
                    mkRepo (<[tag := content]> (files r)) (index r) (objects r)
                           (branches r) (tags r) (head r)))
      by (unfold checkout; now rewrite Hr, Ho, Hi).
    split; [exact Hc|]. intros r'.
    unfold restoreFromBackup, bind. rewrite Hc.
    unfold checkoutLocalBranch, head_commit.
    cbn [branches head files index objects tags].
    destruct (branches r !! (js "restore-" ++ tag)) eqn:Hb; [discriminate|].
    destruct (head r) as [b|c]; [destruct (branches r !! b) eqn:E|];
      intros [= <-]; cbn [head branches files index tags objects];
      repeat split; try apply lookup_insert_eq; exact Hb.
Qed.

Lemma restoreFromBackup_unknown_tag_witness :
  restoreFromBackup no_other_names (js "draft-one") repo_tagged
  = (Err (PathspecNoMatch (js "draft-one")), repo_tagged).
Proof.
  apply (restoreFromBackup_unknown_tag no_other_names repo_tagged (js "draft-one"));
    vm_compute; reflexivity.
Defined.

(** C6 as stated fails for a name that is the path of a tracked file: in
    [repo_tagged] nothing is called [a.md] but the chapter, yet
    [restoreFromBackup] of that name succeeds and creates the branch
    [restore-a.md]. *)
Lemma restoreFromBackup_tracked_path_counterexample :
  resolve repo_tagged (js "a.md") = None
  /\ branches repo_tagged !! js "restore-a.md" = None
  /\ exists r',
       restoreFromBackup no_other_names (js "a.md") repo_tagged = (Ok (), r')
       /\ head r' = OnBranch (js "restore-a.md")
       /\ branches r' !! js "restore-a.md" = Some 1%nat.
Proof.
  split; [vm_compute; reflexivity|]. split; [vm_compute; reflexivity|].
  eexists. split; [vm_compute; reflexivity|].
  split; [reflexivity | vm_compute; reflexivity].
Qed.

(** C1 fails on the code, twice.  [commitChapter] commits
    [message || defaultMessage]: with the message "First line" the stored
    message is "First line", without the count that only the default
    message carries, while [commitAll] does append the count to the
    message it is given.  And [getHistory] asks git for [--oneline], which
    replaces the format in which the library marks the fields of a commit:
    the one record it returns holds all of git's output as [hash], an
    empty message and no word count. *)
Theorem commitChapter_explicit_message_no_count abbrev :
  hex_ids abbrev ->
  exists r' r2 hash,
    commitChapter (js "chapters/01.md") (Some (js "First line")) repo_chapter
    = (Ok (Some 1%nat), r')
    /\ head_message r' = Some (js "First line")
    /\ js "First line" <> js "First line (5 words)"
    /\ getHistory abbrev 1 r' = (Ok [mkInfo hash [] None], r')
    /\ @None Z <> Some 5
    /\ commitAll (js "First line") repo_chapter = (Ok (Some 1%nat), r2)
    /\ head_message r2 = Some (js "First line (5 total words)").
Proof.
  intros Ha.
  set (r' := snd (commitChapter (js "chapters/01.md") (Some (js "First line"))
                   repo_chapter)).
  destruct (getHistory_one_record abbrev O r' 1%nat
              (mkCommit (js "First line")
                 (<[js "chapters/01.md" := js "The quick brown fox jumps."]>
                    tree_setup) (Some O)))
    as [hash Hhist];
    [vm_compute; reflexivity | vm_compute; reflexivity | exact Ha
    | repeat constructor; vm_compute; repeat constructor; discriminate |].
  exists r', (snd (commitAll (js "First line") repo_chapter)), hash.
  split; [vm_compute; reflexivity|]. split; [vm_compute; reflexivity|].
  split; [discriminate|]. split; [exact Hhist|]. split; [discriminate|].
  split; vm_compute; reflexivity.
Qed.

Lemma commitChapter_explicit_message_no_count_witness :
  exists r' hash,
    commitChapter (js "chapters/01.md") (Some (js "First line")) repo_chapter
    = (Ok (Some 1%nat), r')
    /\ head_message r' = Some (js "First line")
    /\ getHistory abbrev_sample 1 r' = (Ok [mkInfo hash [] None], r')
    /\ hash = js "a1b2c31 First line".
Proof.
  destruct (commitChapter_explicit_message_no_count abbrev_sample abbrev_sample_hex)
    as (r' & r2 & hash & H1 & H2 & _ & H4 & _).
  exists r', hash. split; [exact H1|]. split; [exact H2|]. split; [exact H4|].
  assert (E : r' = snd (commitChapter (js "chapters/01.md")
                          (Some (js "First line")) repo_chapter))
    by (now rewrite H1).
  assert (E' : fst (getHistory abbrev_sample 1 r')
               = Ok [mkInfo (js "a1b2c31 First line") [] None])
    by (rewrite E; vm_compute; reflexivity).
  rewrite H4 in E'. cbn [fst] in E'. now injection E'.
Defined.




(** C2, as the code has it.  On a clean working tree with a HEAD commit,
    [backup] commits nothing and still creates its tag on HEAD, provided
    the tag name is free.  The tag name is [backup-<date>], the date being
    the part of the clock reading before the [T]: two calls in succession
    on different dates both succeed and leave two distinct tags on HEAD and
    no new commit; two calls on the same date compute the same name. *)
Theorem backup_clean_tree_twice r c m1 m2 now1 now2 :
  clean r ->
  head_commit r = Some c ->
  tags r !! backupTagAt now1 = None ->
  tags r !! backupTagAt now2 = None ->
  (exists r1,
     backup m1 now1 r = (Ok (backupTagAt now1), r1)
     /\ objects r1 = objects r
     /\ tags r1 !! backupTagAt now1 = Some c)
  /\ (backupTagAt now1 <> backupTagAt now2 ->
      exists r1 r2,
        backup m1 now1 r = (Ok (backupTagAt now1), r1)
        /\ backup m2 now2 r1 = (Ok (backupTagAt now2), r2)
        /\ objects r2 = objects r
        /\ branches r2 = branches r
        /\ tags r2 !! backupTagAt now1 = Some c
        /\ tags r2 !! backupTagAt now2 = Some c)
  /\ (hd [] (split_chr 84 now1) = hd [] (split_chr 84 now2) ->
      backupTagAt now1 = backupTagAt now2).
Proof.
  intros Hc Hh H1 H2. split; [|split].
  - exists (with_tag r (backupTagAt now1) c).
    split; [now apply backup_clean|]. split; [reflexivity|].
    apply lookup_insert_eq.
  - intros Hne. now apply backup_twice.
  - intros E. unfold backupTagAt. now rewrite E.
Qed.

Lemma backup_clean_tree_twice_witness :
  exists r1 r2,
    backup None (js "2025-01-15T10:00:00.000Z") repo_initial
    = (Ok (js "backup-2025-01-15"), r1)
    /\ backup None (js "2025-01-16T09:30:00.000Z") r1
       = (Ok (js "backup-2025-01-16"), r2)
    /\ objects r2 = objects repo_initial
    /\ branches r2 = branches repo_initial
    /\ tags r2 !! js "backup-2025-01-15" = Some O
    /\ tags r2 !! js "backup-2025-01-16" = Some O.
Proof.
  apply (backup_clean_tree_twice repo_initial O None None
           (js "2025-01-15T10:00:00.000Z") (js "2025-01-16T09:30:00.000Z")).
  - split; vm_compute; reflexivity.
  - reflexivity.
  - vm_compute; reflexivity.
  - vm_compute; reflexivity.
  - vm_compute; discriminate.
Defined.

(** C2 as stated fails: two backups of a clean tree on the same day do not
    both succeed.  The first creates the tag [backup-2025-01-15] without a
    new commit; the second computes the same name and the engine refuses
    it. *)
Lemma backup_same_day_counterexample :
  exists r1,
    backup None (js "2025-01-15T10:00:00.000Z") repo_initial
    = (Ok (js "backup-2025-01-15"), r1)
    /\ objects r1 = objects repo_initial
    /\ backup None (js "2025-01-15T18:30:00.000Z") r1
       = (Err (TagExists (js "backup-2025-01-15")), r1).
Proof.
  eexists. split; [vm_compute; reflexivity|].
  split; vm_compute; reflexivity.
Qed.

(** C4 fails on the code.  In [repo_mixed] the writing files hold 4 words
    in all, 3 of them in the committed and unchanged [a.md]; the count that
    [backup] encodes into the message of the commit it creates is 1, the
    words of the one changed file [b.md]: [getTotalWordCount] reads the
    file list from [git status], which names only files with changes. *)
Theorem backup_counts_changed_files_only :
  all_files_word_count repo_mixed = 4%nat
  /\ fst (getTotalWordCount repo_mixed) = Ok 1%nat
  /\ exists r,
       backup None (js "2025-01-15T10:00:00.000Z") repo_mixed
       = (Ok (js "backup-2025-01-15"), r)
       /\ head_message r = Some (js "Backup: 2025-01-15 (1 total words)")
       /\ extractWordCountFromMessage (js "Backup: 2025-01-15 (1 total words)")
          = Some 1.
Proof.
  split; [vm_compute; reflexivity|]. split; [vm_compute; reflexivity|].
  eexists. split; [vm_compute; reflexivity|].
  split; vm_compute; reflexivity.
Qed.

(** * Further properties of the service and its callers *)

(** X1.  The word-history block of the status command never prints.  It
    prints the recent and the weekly change only for a history of more
    than one entry, and the history that [getWordCountHistory] builds from
    git's output has at most one, however many commits the week holds. *)
Theorem status_word_changes_never_printed stdOut history :
  no_mark stdOut ->
  getWordCountHistory (log_hashes stdOut) = Ok history ->
  (length history <= 1)%nat /\ statusWordChanges history = None.
Proof.
  intros Hm H. pose proof (history_at_most_one stdOut Hm) as Hl.
  rewrite H in Hl. split; [exact Hl|].
  unfold statusWordChanges. rewrite bool_decide_eq_false_2; [reflexivity | lia].
Qed.

Lemma status_word_changes_never_printed_witness :
  length window_sample = 3%nat
  /\ statusWordChanges [mkEntry (js "2025-01-03") 30 30] = None.
Proof.
  split; [reflexivity|].
  apply (status_word_changes_never_printed (pretty_output window_sample)).
  - repeat constructor; discriminate.
  - vm_compute. reflexivity.
Defined.

(** X3.  [createDraftTag] tags the HEAD commit and nothing else.  Whenever
    it completes, the tag is new and points to the HEAD commit, and the
    project files, the index and the commits are as they were, so changes
    that are not committed are not part of the tagged snapshot.  A tag that
    exists is never moved: the call fails and changes nothing. *)
Theorem createDraftTag_tags_head r name :
  (forall c0, tags r !! name = Some c0 ->
     createDraftTag name r = (Err (TagExists name), r))
  /\ (forall r', createDraftTag name r = (Ok (), r') ->
        exists c,
          head_commit r = Some c
          /\ tags r !! name = None
          /\ r' = with_tag r name c
          /\ tree_at r' (Some c) = head_tree r).
Proof.
  pose proof (createDraftTag_effect r name) as H. split.
  - intros c0 Ht. now rewrite Ht in H.
  - intros r' E. rewrite E in H.
    destruct (tags r !! name) as [c0|]; [discriminate|].
    destruct (head_commit r) as [c|] eqn:Hh; [|discriminate].
    injection H as ->. exists c. repeat split.
    unfold head_tree. now rewrite Hh.
Qed.

Lemma createDraftTag_tags_head_witness :
  createDraftTag (js "draft-1") repo_mixed
  = (Ok (), with_tag repo_mixed (js "draft-1") 1)
  /\ tree_at (with_tag repo_mixed (js "draft-1") 1) (Some 1%nat) = tree_one
  /\ files repo_mixed !! js "b.md" = Some (js "four")
  /\ tree_one !! js "b.md" = None.
Proof.
  assert (E : createDraftTag (js "draft-1") repo_mixed
              = (Ok (), with_tag repo_mixed (js "draft-1") 1))
    by (vm_compute; reflexivity).
  destruct (createDraftTag_tags_head repo_mixed (js "draft-1")) as [_ H].
  destruct (H _ E) as (c & Hc & _ & _ & Ht).
  assert (c = 1%nat) as -> by (vm_compute in Hc; congruence).
  split; [exact E|]. split; [rewrite Ht; vm_compute; reflexivity|].
  split; vm_compute; reflexivity.
Defined.

(** X5.  [backup] is not all-or-nothing.  When the tag name of the day is
    taken, the call fails with the engine's error for the tag, but only
    after [commitAll] has run: outstanding changes have been committed (one
    new commit, now HEAD), no tag has been added, and the working tree is
    clean. *)
Theorem backup_commits_before_failing r message now x :
  tags r !! backupTagAt now = Some x ->
  exists r',
    backup message now r = (Err (TagExists (backupTagAt now)), r')
    /\ clean r'
    /\ files r' = files r
    /\ tags r' = tags r
    /\ head_tree r' = files r
    /\ (files r = head_tree r -> objects r' = objects r)
    /\ (files r <> head_tree r ->
        length (objects r') = S (length (objects r))
        /\ head_commit r' = Some (length (objects r))).
Proof. apply backup_tag_taken. Qed.

Lemma backup_commits_before_failing_witness :
  exists r',
    backup None (js "2025-01-15T18:00:00.000Z") repo_mixed_tagged
    = (Err (TagExists (js "backup-2025-01-15")), r')
    /\ length (objects r') = 3%nat
    /\ head_tree r' = files repo_mixed_tagged
    /\ tags r' = tags repo_mixed_tagged.
Proof.
  destruct (backup_commits_before_failing repo_mixed_tagged None
              (js "2025-01-15T18:00:00.000Z") 1%nat)
    as (r' & H1 & _ & _ & H4 & H5 & _ & H7); [vm_compute; reflexivity|].
  exists r'. split; [exact H1|].
  destruct H7 as [H7 _];
    [apply (bool_decide_unpack _); vm_compute; exact I|].
  split; [exact H7|]. split; [exact H5 | exact H4].
Defined.

(** X6.  Restoring the same snapshot a second time fails, and not without
    effect: after a restore from a clean working tree, a second
    [restoreFromBackup] of the same tag stops at the branch that the first
    one created, and leaves HEAD detached at the tag's commit instead of on
    a branch; branches and project files stay as the first restore left
    them. *)
Theorem restoreFromBackup_twice other r tag c r1 :
  clean r ->
  resolve r tag = Some (Detached c) ->
  restoreFromBackup other tag r = (Ok (), r1) ->
  exists r2,
    restoreFromBackup other tag r1
    = (Err (BranchExists (js "restore-" ++ tag)), r2)
    /\ head r1 = OnBranch (js "restore-" ++ tag)
    /\ head r2 = Detached c
    /\ branches r2 = branches r1
    /\ tags r2 = tags r1
    /\ files r2 = files r1.
Proof.
  intros Hc Hr H.
  destruct (restore_then_clean _ _ _ _ _ Hc Hr H) as (Hc1 & Hr1 & Hb1 & Hh1 & Hf1).
  destruct (restore_again other r1 tag c c Hc1 Hr1 Hb1)
    as (r2 & E & H2 & H3 & H4 & H5).
  exists r2. split; [exact E|]. split; [exact Hh1|].
  split; [exact H2|]. split; [exact H3|]. split; [exact H4|].
  now rewrite H5, Hf1.
Qed.

Lemma restoreFromBackup_twice_witness :
  let tag := js "backup-2025-01-15" in
  let r1 := snd (restoreFromBackup no_other_names tag repo_tagged) in
  exists r2,
    restoreFromBackup no_other_names tag r1
    = (Err (BranchExists (js "restore-backup-2025-01-15")), r2)
    /\ head r2 = Detached O.
Proof.
  intros tag r1.
  destruct (restoreFromBackup_twice no_other_names repo_tagged tag O r1)
    as (r2 & H1 & _ & H3 & _);
    [split; vm_compute; reflexivity | vm_compute; reflexivity
    | vm_compute; reflexivity |].
  exists r2. split; [exact H1 | exact H3].
Defined.

(** X8.  The tag name given to the backup command does not name the
    snapshot.  The handler passes it on only inside the commit message;
    the tag created is [backup-<date>].  So after a backup made with a tag
    name, restoring by another name that was nothing to the engine before
    (no branch, no tag, no project file, no other revision or pathspec),
    such as the tag name itself or [draft-<tag>], fails and changes
    nothing. *)
Theorem backupHandler_ignores_tag other r tag message now t r' :
  backupHandler tag message now r = (Ok t, r') ->
  t = backupTagAt now
  /\ forall n,
       n <> t ->
       resolve r n = None ->
       head r <> OnBranch n ->
       files r !! n = None ->
       other n r' = None ->
       restoreFromBackup other n r' = (Err (PathspecNoMatch n), r').
Proof.
  unfold backupHandler. intros H.
  destruct (backup_success _ _ _ _ _ H)
    as (Ht & [Hc _] & Hf & _ & Htags & Hbr & _).
  split; [exact Ht|]. intros n Hn Hr Hh Hfn Ho.
  apply resolve_none in Hr as [Hb Htg].
  apply restoreFromBackup_missing.
  - now rewrite Hbr.
  - now rewrite Htags.
  - exact Ho.
  - now rewrite <- Hc, Hf.
Qed.

Lemma backupHandler_ignores_tag_witness :
  let r' := snd (backupHandler (Some (js "v1")) None
                   (js "2025-01-15T10:00:00.000Z") repo_mixed) in
  restoreFromBackup no_other_names (js "v1") r'
  = (Err (PathspecNoMatch (js "v1")), r')
  /\ restoreFromBackup no_other_names (js "draft-v1") r'
     = (Err (PathspecNoMatch (js "draft-v1")), r').
Proof.
  intros r'.
  destruct (backupHandler_ignores_tag no_other_names repo_mixed (Some (js "v1"))
              None (js "2025-01-15T10:00:00.000Z") (js "backup-2025-01-15") r')
    as [_ H]; [vm_compute; reflexivity|].
  split; apply H; try (vm_compute; discriminate); vm_compute; reflexivity.
Defined.



(** X10.  The branch name built from a chapter name contains no white
    space, whatever [toLowerCase] returns: every maximal run of white space
    becomes one hyphen and everything else is kept.  The replacement is
    fixed by what it does to a text that starts with a word and to one
    that starts with a run: a stretch without white space is copied, and a
    whole run, whatever its length and whatever white space it is made of,
    is replaced by a single hyphen. *)
Theorem chapterBranchName_no_space lower name :
  Forall (fun c => is_space c = false) (chapterBranchName lower name)
  /\ replace_ws [] = []
  /\ (forall w rest,
        Forall (fun c => is_space c = false) w ->
        replace_ws (w ++ rest) = w ++ replace_ws rest)
  /\ (forall c run rest,
        is_space c = true ->
        Forall (fun c => is_space c = true) run ->
        match rest with
        | y :: _ => is_space y
        | [] => false
        end = false ->
        replace_ws (c :: run ++ rest) = 45%N :: replace_ws rest).
Proof.
  split; [|split; [reflexivity|split]].
  - unfold chapterBranchName. apply Forall_app. split.
    + repeat constructor.
    + apply replace_ws_go_no_space.
  - intros w rest Hw. apply replace_ws_go_word; [exact Hw | now right].
  - intros c run rest. apply replace_ws_run.
Qed.

Lemma chapterBranchName_no_space_witness :
  replace_ws (js "the long" ++ 32%N :: [9%N] ++ js "road")
  = js "the" ++ 45%N :: js "long" ++ 45%N :: js "road"
  /\ chapterBranchName ascii_lower (js "The Long" ++ 32%N :: [9%N] ++ js "Road")
     = js "chapter/the-long-road".
Proof.
  destruct (chapterBranchName_no_space ascii_lower []) as (_ & H0 & Hw & Hr).
  split; [|vm_compute; reflexivity].
  change (js "the long" ++ 32%N :: [9%N] ++ js "road")
    with (js "the" ++ 32%N :: [] ++ js "long" ++ 32%N :: [9%N] ++ js "road").
  rewrite Hw by (repeat constructor).
  rewrite Hr by (first [reflexivity | repeat constructor]).
  rewrite Hw by (repeat constructor).
  rewrite Hr by (first [reflexivity | repeat constructor]).
  rewrite <- (app_nil_r (js "road")) at 1.
  rewrite Hw by (repeat constructor). rewrite H0, app_nil_r. reflexivity.
Defined.

(** X11.  [branchChapter], when it completes, has created the branch
    [chapter/<name>] at the HEAD commit and switched to it; no other
    branch, no tag, no commit and no file has changed.  A second chapter
    whose name gives the same branch name (it differs in case or in white
    space only) cannot get a branch: the call fails on the existing branch
    and changes nothing. *)
Theorem branchChapter_creates_branch lower name r r' :
  branchChapter lower name r = (Ok (), r') ->
  head r' = OnBranch (chapterBranchName lower name)
  /\ branches r !! chapterBranchName lower name = None
  /\ branches r' !! chapterBranchName lower name = head_commit r
  /\ (forall b, b <> chapterBranchName lower name ->
        branches r' !! b = branches r !! b)
  /\ files r' = files r /\ index r' = index r
  /\ objects r' = objects r /\ tags r' = tags r
  /\ forall other c,
       chapterBranchName lower other = chapterBranchName lower name ->
       head_commit r = Some c ->
       branchChapter lower other r'
       = (Err (BranchExists (chapterBranchName lower name)), r').
Proof.
  intros H.
  destruct (branchChapter_effect _ _ _ _ H)
    as (H1 & H2 & H3 & H4 & H5 & H6 & H7 & H8).
  repeat (split; [assumption|]).
  intros other c E Hh.
  now apply (branchChapter_collision lower name other r c r').
Qed.

Lemma branchChapter_creates_branch_witness :
  let r' := snd (branchChapter ascii_lower (js "The Long Road") repo_initial) in
  head r' = OnBranch (js "chapter/the-long-road")
  /\ branches r' !! js "chapter/the-long-road" = Some O
  /\ branchChapter ascii_lower (js "the  long road") r'
     = (Err (BranchExists (js "chapter/the-long-road")), r').
Proof.
  intros r'.
  destruct (branchChapter_creates_branch ascii_lower (js "The Long Road")
              repo_initial r')
    as (H1 & _ & H3 & _ & _ & _ & _ & _ & H9); [vm_compute; reflexivity|].
  split; [exact H1|]. split; [exact H3|].
  apply (H9 (js "the  long road") O); vm_compute; reflexivity.
Defined.

(** X12.  [mergeChapter] checks out the name [main] before it merges.
    From a clean working tree with a branch [main], the merge runs with
    HEAD on [main] and the files of its commit, whichever branch was
    checked out before.  When nothing is named [main] (no branch, no tag,
    no tracked file, nothing else the engine knows) the call fails before
    any merge and changes nothing.  When only a tracked file is named
    [main], the checkout restores that file and the merge runs on the
    branch that was checked out, not on a branch [main]. *)
Theorem mergeChapter_targets_main merge other chapterBranch r :
  (forall c,
     clean r ->
     branches r !! js "main" = Some c ->
     exists r1,
       mergeChapter merge other chapterBranch r = merge [chapterBranch] r1
       /\ head r1 = OnBranch (js "main")
       /\ branches r1 = branches r /\ tags r1 = tags r
       /\ objects r1 = objects r
       /\ files r1 = tree_at r (Some c))
  /\ (resolve r (js "main") = None ->
      other (js "main") r = None ->
      (index r !! js "main" = None ->
       mergeChapter merge other chapterBranch r
       = (Err (PathspecNoMatch (js "main")), r))
      /\ (forall content,
            index r !! js "main" = Some content ->
            mergeChapter merge other chapterBranch r
            = merge [chapterBranch]
                (mkRepo (<[js "main" := content]> (files r)) (index r)
                        (objects r) (branches r) (tags r) (head r)))).
Proof.
  split.
  - intros c. apply mergeChapter_on_main.
  - intros Hr Ho. split.
    + intros Hi. now apply mergeChapter_no_main.
    + intros content Hi. now apply mergeChapter_main_file.
Qed.

Lemma mergeChapter_targets_main_witness :
  mergeChapter merge_noop no_other_names (js "chapter/one") repo_master
  = (Err (PathspecNoMatch (js "main")), repo_master)
  /\ mergeChapter merge_noop no_other_names (js "chapter/one") repo_main_file
     = (Ok (), repo_main_file)
  /\ head repo_main_file = OnBranch (js "master").
Proof.
  split; [|split; [|reflexivity]].
  - apply (proj2 (mergeChapter_targets_main merge_noop no_other_names
                    (js "chapter/one") repo_master));
      vm_compute; reflexivity.
  - destruct (proj2 (mergeChapter_targets_main merge_noop no_other_names
                (js "chapter/one") repo_main_file)) as [_ H];
      [vm_compute; reflexivity | reflexivity |].
    rewrite (H (js "entry point")) by (vm_compute; reflexivity).
    unfold merge_noop. apply f_equal.
    unfold repo_main_file. cbn [files index objects branches tags head].
    rewrite insert_id by (vm_compute; reflexivity). reflexivity.
Defined.

(** X13.  The net word change of [getDiff].  Whatever the engine reports,
    [getDiff] returns the number of files, the two line counts as they
    are, and as [netWordChange] an integer [n], the integer nearest to a
    fifth of the net line count: [insertions - deletions] lies within 2 of
    [5 * n].  A ref given as [toCommit] without a [fromCommit] reaches the
    engine in the place of [fromCommit]. *)
Theorem getDiff_net_estimate diffSummary fromCommit toCommit r diffStat r1 :
  diffSummary (diff_args fromCommit toCommit) r = (Ok diffStat, r1) ->
  (exists n,
     getDiff diffSummary fromCommit toCommit r
     = (Ok (mkManuscriptDiff (length (ds_files diffStat))
              (ds_insertions diffStat) (ds_deletions diffStat)
              (Fin (inject_Z n))), r1)
     /\ 5 * n - 2 <= ds_insertions diffStat - ds_deletions diffStat <= 5 * n + 2)
  /\ forall ref,
       getDiff diffSummary None (Some ref) = getDiff diffSummary (Some ref) None.
Proof.
  intros H. split.
  - exists (((ds_insertions diffStat - ds_deletions diffStat) * 2 + 5) / 10).
    split.
    + unfold getDiff, bind, ret. rewrite H. unfold manuscriptDiff.
      now rewrite round_div5.
    + apply round_div5_bounds.
  - intros ref. unfold getDiff, diff_args. destruct ref; reflexivity.
Qed.

Lemma getDiff_net_estimate_witness :
  getDiff diffSummary_fixed (Some (js "v1")) (Some (js "v2")) repo_initial
  = (Ok (mkManuscriptDiff 2 12 4 (Fin (inject_Z 2))), repo_initial).
Proof.
  destruct (getDiff_net_estimate diffSummary_fixed (Some (js "v1"))
              (Some (js "v2")) repo_initial
              (mkDiffSummary [js "a.md"; js "b.md"] 12 4) repo_initial)
    as [(n & H1 & H2) _]; [reflexivity|].
  cbn [ds_insertions ds_deletions] in H2.
  assert (n = 2) as -> by lia. exact H1.
Defined.

(** X14.  The three estimates that [DiffCommand] prints are integers, and
    they need not add up: the net change differs from words added minus
    words removed by at most one, and it can differ (3 lines added and 1
    removed print as 1 word added, 0 removed, net 0). *)
Theorem DiffCommand_estimates :
  (forall diffStat,
     exists a d n,
       wordsAdded (manuscriptDiff diffStat) = Fin (inject_Z a)
       /\ wordsRemoved (manuscriptDiff diffStat) = Fin (inject_Z d)
       /\ netWordChange (manuscriptDiff diffStat) = Fin (inject_Z n)
       /\ -1 <= n - (a - d) <= 1)
  /\ wordsAdded (manuscriptDiff (mkDiffSummary [] 3 1)) = Fin (inject_Z 1)
  /\ wordsRemoved (manuscriptDiff (mkDiffSummary [] 3 1)) = Fin (inject_Z 0)
  /\ netWordChange (manuscriptDiff (mkDiffSummary [] 3 1)) = Fin (inject_Z 0).
Proof.
  split; [|repeat split; reflexivity].
  intros diffStat. unfold wordsAdded, wordsRemoved, manuscriptDiff.
  cbn [insertions deletions netWordChange]. rewrite !round_div5.
  do 3 eexists. split; [reflexivity|]. split; [reflexivity|].
  split; [reflexivity|].
  pose proof (round_div5_bounds (ds_insertions diffStat)).
  pose proof (round_div5_bounds (ds_deletions diffStat)).
  pose proof (round_div5_bounds (ds_insertions diffStat - ds_deletions diffStat)).
  lia.
Qed.

(** X15.  The file list of [compareVersions] reads the engine's output
    back.  When [git diff --name-only] prints the names [names], one per
    line, each non-empty and without a line feed, the list that
    [compareVersions] returns is [names], beside the diff of the two
    tags. *)
Theorem compareVersions_files diffSummary diff tag1 tag2 r diffStat names :
  diffSummary (diff_args (Some tag1) (Some tag2)) r = (Ok diffStat, r) ->
  diff [js "--name-only"; tag1; tag2] r
  = (Ok (concat (map (fun n => n ++ [10%N]) names)), r) ->
  Forall (fun n => n <> []) names ->
  Forall (fun n => Forall (fun c => c <> 10%N) n) names ->
  compareVersions diffSummary diff tag1 tag2 r
  = (Ok (manuscriptDiff diffStat, names), r).
Proof.
  intros H1 H2 Hne Hnl. unfold compareVersions, getDiff, bind, ret.
  rewrite H1, H2. rewrite split_chr_lines by exact Hnl.
  now rewrite filter_nonempty_lines.
Qed.

Lemma compareVersions_files_witness :
  compareVersions diffSummary_fixed diff_fixed (js "v1") (js "v2") repo_initial
  = (Ok (manuscriptDiff (mkDiffSummary [js "a.md"; js "b.md"] 12 4),
         [js "a.md"; js "b.md"]), repo_initial).
Proof.
  apply (compareVersions_files diffSummary_fixed diff_fixed (js "v1") (js "v2")
           repo_initial (mkDiffSummary [js "a.md"; js "b.md"] 12 4)
           [js "a.md"; js "b.md"]).
  - reflexivity.
  - reflexivity.
  - repeat constructor; discriminate.
  - repeat constructor; discriminate.
Defined.

(** X16.  [initialize] bootstraps once.  It always succeeds and leaves a
    repository on which a second call changes nothing; a directory that is
    a repository already is not touched.  In a plain directory it writes
    the default ignore file over any [.gitignore] that was there, keeps
    every other file as it was and outside the index and the first commit,
    and makes that commit, whose message carries no word count, the HEAD of
    the engine's default branch. *)
Theorem initialize_bootstraps defaultBranch d :
  exists r,
    initialize defaultBranch d = (Ok (), Versioned r)
    /\ initialize defaultBranch (Versioned r) = (Ok (), Versioned r)
    /\ (forall r0, d = Versioned r0 -> r = r0)
    /\ (forall fs, d = Plain fs ->
          files r !! js ".gitignore" = Some gitignoreContent
          /\ (forall p, p <> js ".gitignore" ->
                files r !! p = fs !! p
                /\ index r !! p = None
                /\ head_tree r !! p = None)
          /\ head r = OnBranch defaultBranch
          /\ head_message r = Some (js "Initial commit: Writer project setup")
          /\ extractWordCountFromMessage
               (js "Initial commit: Writer project setup") = None).
Proof.
  destruct d as [fs|r0].
  - eexists. split; [apply initialize_plain|]. split; [reflexivity|].
    split; [discriminate|]. intros fs' [= <-].
    cbn [files index head]. split; [apply lookup_insert_eq|]. split.
    + intros p Hp. split; [now rewrite lookup_insert_ne|].
      split; [now rewrite lookup_singleton_ne|].
      unfold head_tree, head_commit. cbn [head branches].
      rewrite lookup_singleton_eq. cbn [tree_at objects].
      change ([mkCommit (js "Initial commit: Writer project setup")
                 {[js ".gitignore" := gitignoreContent]} None] !! O)
        with (Some (mkCommit (js "Initial commit: Writer project setup")
                      {[js ".gitignore" := gitignoreContent]} None)).
      cbn [c_tree]. now rewrite lookup_singleton_ne.
    + split; [reflexivity|]. split; [|vm_compute; reflexivity].
      unfold head_message, head_commit. cbn [head branches objects].
      rewrite lookup_singleton_eq. reflexivity.
  - exists r0. split; [reflexivity|]. split; [reflexivity|].
    split; [now intros r1 [= ->] | discriminate].
Qed.

Lemma initialize_bootstraps_witness :
  exists r,
    initialize (js "master") (Plain plain_project) = (Ok (), Versioned r)
    /\ files r !! js ".gitignore" = Some gitignoreContent
    /\ files r !! js "chapters/01.md" = Some (js "Once upon a time")
    /\ head_tree r !! js "chapters/01.md" = None.
Proof.
  destruct (initialize_bootstraps (js "master") (Plain plain_project))
    as (r & H1 & _ & _ & H4).
  destruct (H4 plain_project eq_refl) as (E1 & E2 & _).
  destruct (E2 (js "chapters/01.md")) as (E3 & _ & E5);
    [vm_compute; discriminate|].
  exists r. split; [exact H1|]. split; [exact E1|].
  split; [rewrite E3; vm_compute; reflexivity | exact E5].
Defined.

(** X17.  The token file shadows the [.env] file.  With no token in the
    environment, a token file that can be read decides alone: the token is
    its content without the white space at both ends, so it never starts
    or ends with white space, and [.env] is not looked at.  A blank token
    file therefore gives the empty token, with which [setupAuthentication]
    sets up nothing, even when [.env] holds a token. *)
Theorem getGitHubToken_token_file w content :
  js_or (env_GITHUB_TOKEN w) (env_GH_TOKEN w) = None
  \/ js_or (env_GITHUB_TOKEN w) (env_GH_TOKEN w) = Some [] ->
  token_file w = Some content ->
  getGitHubToken w = Some (trim content)
  /\ (forall c s, trim content = c :: s -> is_space c = false)
  /\ (forall c s, trim content = s ++ [c] -> is_space c = false)
  /\ (Forall (fun c => is_space c = true) content ->
      setupAuthentication w = None).
Proof.
  intros He Hf.
  assert (H : getGitHubToken w = Some (trim content)).
  { unfold getGitHubToken. destruct He as [-> | ->]; now rewrite Hf. }
  split; [exact H|]. split; [apply trim_ends|]. split; [apply trim_ends|].
  intros Hall. unfold setupAuthentication. rewrite H.
  assert (trim_start content = []) as E.
  { clear -Hall. induction Hall as [|c s Hc _ IH]; cbn [trim_start];
      [reflexivity | now rewrite Hc]. }
  unfold trim. now rewrite E.
Qed.

Lemma getGitHubToken_token_file_witness :
  getGitHubToken credentials_blank_file = Some []
  /\ setupAuthentication credentials_blank_file = None.
Proof.
  destruct (getGitHubToken_token_file credentials_blank_file
              (js "  " ++ [10%N]))
    as (H1 & _ & _ & H4); [right; reflexivity | reflexivity |].
  split; [exact H1|]. apply H4. repeat constructor.
Defined.

(** X18.  What is read from [.env].  With no token in the environment and
    no token file, the token is the rest of the line after the first
    occurrence of [GITHUB_TOKEN=] in the file, without the white space at
    its ends, provided that rest is not empty.  The occurrence need not
    start a line: the text before it does not matter. *)
Theorem getGitHubToken_dotenv w envContent before rest c v :
  js_or (env_GITHUB_TOKEN w) (env_GH_TOKEN w) = None
  \/ js_or (env_GITHUB_TOKEN w) (env_GH_TOKEN w) = Some [] ->
  token_file w = None ->
  dotenv_file w = Some envContent ->
  find_first (js "GITHUB_TOKEN=") envContent [] = Some (before, rest) ->
  run is_dot rest = c :: v ->
  getGitHubToken w = Some (trim (c :: v)).
Proof.
  intros He Hf Hd Hfirst Hrun. unfold getGitHubToken.
  destruct He as [-> | ->]; rewrite Hf, Hd;
    now rewrite (re_search_first_occurrence _ _ _ _ _ _ Hfirst Hrun).
Qed.

Lemma getGitHubToken_dotenv_witness :
  getGitHubToken credentials_dotenv = Some (js "ghp_old").
Proof.
  apply (getGitHubToken_dotenv credentials_dotenv
           (js "OPENROUTER_API_KEY=sk-1" ++ [10%N]
            ++ js "# GITHUB_TOKEN= ghp_old " ++ [10%N]
            ++ js "GITHUB_TOKEN=ghp_new" ++ [10%N])
           (js "OPENROUTER_API_KEY=sk-1" ++ [10%N] ++ js "# ")
           (js " ghp_old " ++ [10%N] ++ js "GITHUB_TOKEN=ghp_new" ++ [10%N])
           32%N (js "ghp_old "));
    try reflexivity.
  left; reflexivity.
Defined.

(** X19.  [configureGitHub] never fails and is idempotent: whether or not
    a remote [origin] exists, afterwards [origin] has the URL built from
    the arguments, every other remote is as before, and a second call with
    the same arguments changes nothing. *)
Theorem configureGitHub_sets_url (repoUrl : list N) (token : option (list N))
    (s : gmap (list N) (list N)) :
  exists s',
    configureGitHub repoUrl token s = (inr (), s')
    /\ s' !! js "origin" = Some (authenticatedUrl repoUrl token)
    /\ (forall name, name <> js "origin" -> s' !! name = s !! name)
    /\ configureGitHub repoUrl token s' = (inr (), s').
Proof.
  exists (<[js "origin" := authenticatedUrl repoUrl token]> s).
  split; [apply configureGitHub_sets_origin|].
  split; [apply lookup_insert_eq|]. split.
  - intros name Hn. now rewrite lookup_insert_ne.
  - rewrite configureGitHub_sets_origin. now rewrite insert_insert_eq.
Qed.

Lemma configureGitHub_sets_url_witness :
  exists s',
    configureGitHub (js "git@github.com:me/novel.git") (Some (js "ghp_x"))
      {[ js "upstream" := js "https://example.org/u.git" ]}
    = (inr (), s')
    /\ s' !! js "origin" = Some (js "git@github.com:me/novel.git")
    /\ s' !! js "upstream" = Some (js "https://example.org/u.git").
Proof.
  destruct (configureGitHub_sets_url (js "git@github.com:me/novel.git")
              (Some (js "ghp_x"))
              {[ js "upstream" := js "https://example.org/u.git" ]})
    as (s' & H1 & H2 & H3 & _).
  exists s'. split; [exact H1|]. split.
  - rewrite H2. vm_compute. reflexivity.
  - rewrite H3 by (vm_compute; discriminate). vm_compute. reflexivity.
Defined.

(** X20.  The token goes into the stored URL.  For a token without a
    dollar sign and a URL under [https://github.com/], [configureGitHub]
    stores [https://<token>@github.com/<path>] for [origin], and when
    [origin] is the only remote [getRemoteUrl] returns that URL, token
    included.  Without a token, or for a URL of another form, the URL is
    stored as given. *)
Theorem configureGitHub_embeds_token (c : N) (t path : list N)
    (s : gmap (list N) (list N)) :
  Forall (fun x => x <> 36%N) (c :: t) ->
  (forall name, name <> js "origin" -> s !! name = None) ->
  let url := js "https://" ++ (c :: t) ++ js "@github.com/" ++ path in
  exists s',
    configureGitHub (js "https://github.com/" ++ path) (Some (c :: t)) s
    = (inr (), s')
    /\ s' !! js "origin" = Some url
    /\ getRemoteUrl (remote_entries s') = Some url
    /\ forall repoUrl token,
         token = None \/ token = Some []
         \/ startsWith repoUrl (js "https://github.com/") = false ->
         authenticatedUrl repoUrl token = repoUrl.
Proof.
  intros Hd Hs url.
  exists (<[js "origin" := url]> s).
  assert (E : authenticatedUrl (js "https://github.com/" ++ path) (Some (c :: t))
              = url) by now apply authenticatedUrl_embeds.
  split; [now rewrite configureGitHub_sets_origin, E|].
  split; [apply lookup_insert_eq|]. split.
  - assert (<[js "origin" := url]> s = {[js "origin" := url]}) as ->.
    { apply map_eq. intros k. destruct (decide (k = js "origin")) as [->|Hk].
      - now rewrite lookup_insert_eq, lookup_singleton_eq.
      - rewrite lookup_insert_ne, lookup_singleton_ne by congruence.
        now apply Hs. }
    unfold remote_entries. rewrite map_to_list_singleton. reflexivity.
  - intros repoUrl token. apply authenticatedUrl_verbatim.
Qed.

Lemma configureGitHub_embeds_token_witness :
  exists s',
    configureGitHub (js "https://github.com/me/novel.git") (Some (js "ghp_x"))
      {[ js "origin" := js "https://github.com/me/old.git" ]}
    = (inr (), s')
    /\ getRemoteUrl (remote_entries s')
       = Some (js "https://ghp_x@github.com/me/novel.git").
Proof.
  destruct (configureGitHub_embeds_token 103%N (js "hp_x") (js "me/novel.git")
              {[ js "origin" := js "https://github.com/me/old.git" ]})
    as (s' & H1 & _ & H3 & _).
  - repeat constructor; discriminate.
  - intros name Hn. now rewrite lookup_singleton_ne.
  - exists s'. split; [exact H1 | exact H3].
Defined.

(** X21.  The [--list] branch of the backup command never lists a backup.
    It filters the records of [getHistory(50)] on their message, and every
    record has the empty message: the list is empty whatever the commits
    are, also right after a backup whose commit message, [Backup: <date>
    (<n> total words)], the filter would let through. *)
Theorem listBackups_lists_nothing abbrev r c :
  (forall n, no_mark (abbrev n)) ->
  Forall (fun ci => no_mark (c_message ci)) (objects r) ->
  head_commit r = Some c ->
  listBackups abbrev r = (Ok [], r)
  /\ forall timestamp n,
       is_backup_message
         (encode_total_words (js "Backup: " ++ timestamp) (Z.of_nat n)) = true.
Proof.
  intros Ha Hm Hh. split; [|intros; reflexivity].
  unfold listBackups, bind, ret.
  rewrite (getHistory_records abbrev 50 r c Hh Ha Hm).
  destruct (trim (oneline abbrev 50 r)); [reflexivity|].
  rewrite filter_cons_False; [reflexivity|]. cbn [i_message]. discriminate.
Qed.

Lemma listBackups_lists_nothing_witness :
  let r' := snd (backup None (js "2025-01-15T10:00:00.000Z") repo_mixed) in
  head_message r' = Some (js "Backup: 2025-01-15 (1 total words)")
  /\ is_backup_message (js "Backup: 2025-01-15 (1 total words)") = true
  /\ listBackups abbrev_sample r' = (Ok [], r').
Proof.
  intros r'. split; [vm_compute; reflexivity|]. split; [reflexivity|].
  apply (listBackups_lists_nothing abbrev_sample r' 2%nat).
  - apply hex_ids_no_mark, abbrev_sample_hex.
  - repeat constructor; vm_compute; repeat constructor; discriminate.
  - vm_compute; reflexivity.
Defined.

(** X22.  The history holds the newest commit only.  For a window of
    commits git prints one line [id|date|subject] per commit, newest
    first; the library hands all of it over as the [hash] of one log
    entry, and the loop reads the first three [|]-separated fields of that
    text.  So the history is the single entry of the newest commit: its
    day, and as count and as change the count decoded from its subject
    (from the third field, which runs on into the id of the next line when
    there is one). *)
Theorem getWordCountHistory_newest_only x h1 d1 s1 rest :
  is_space x = false ->
  Forall (fun e => no_mark e.1.1 /\ no_mark e.1.2 /\ no_mark e.2)
    ((x :: h1, d1, s1) :: rest) ->
  Forall (fun c => c <> 124%N) (x :: h1) ->
  Forall (fun c => c <> 124%N) d1 ->
  Forall (fun c => c <> 124%N) s1 ->
  Forall (fun c => c <> 124%N)
    match rest with
    | [] => []
    | e2 :: _ => e2.1.1
    end ->
  let message :=
    match rest with
    | [] => trim_end s1
    | e2 :: _ => s1 ++ 10%N :: e2.1.1
    end in
  getWordCountHistory (log_hashes (pretty_output ((x :: h1, d1, s1) :: rest)))
  = Ok [mkEntry (hd [] (split_chr 32 d1))
          (count_or_zero (extractWordCountFromMessage message))
          (count_or_zero (extractWordCountFromMessage message))].
Proof. apply history_of_window. Qed.

Lemma getWordCountHistory_newest_only_witness :
  getWordCountHistory (log_hashes (pretty_output window_sample))
  = Ok [mkEntry (js "2025-01-03") 30 30].
Proof.
  apply (getWordCountHistory_newest_only 99%N (js "3c3c3c")
           (js "2025-01-03 08:00:00 +0000") (js "Third (30 total words)")
           (tl window_sample));
    try reflexivity; repeat constructor; discriminate.
Defined.

(** X24.  [getHistory] returns no message and no word count.  Whatever the
    commits are, it returns at most one record, and that record has the
    empty message and no word count (all that git printed is in its
    [hash]); with a positive limit and a HEAD commit it returns exactly
    one, also when the message of the HEAD commit carries a count. *)
Theorem getHistory_has_no_message abbrev limit r c ci :
  hex_ids abbrev ->
  Forall (fun ci => no_mark (c_message ci)) (objects r) ->
  head_commit r = Some c ->
  objects r !! c = Some ci ->
  exists records,
    getHistory abbrev limit r = (Ok records, r)
    /\ (length records <= 1)%nat
    /\ Forall (fun i => i_message i = [] /\ i_wordCount i = None) records
    /\ (limit <> O -> length records = 1%nat).
Proof.
  intros Ha Hm Hh Ho.
  rewrite (getHistory_records abbrev limit r c Hh (hex_ids_no_mark _ Ha) Hm).
  eexists. split; [reflexivity|].
  destruct limit as [|limit].
  - change (oneline abbrev 0 r) with (@nil N). cbn.
    split; [lia|]. split; [constructor | congruence].
  - destruct (getHistory_one_record abbrev limit r c ci Hh Ho Ha Hm) as [hash E].
    rewrite (getHistory_records abbrev (S limit) r c Hh (hex_ids_no_mark _ Ha) Hm)
      in E.
    destruct (trim (oneline abbrev (S limit) r)); [discriminate|].
    cbn [length]. split; [lia|]. split; [|reflexivity].
    repeat constructor.
Qed.

Lemma getHistory_has_no_message_witness :
  head_message repo_mixed = Some (js "Add a (3 total words)")
  /\ extractWordCountFromMessage (js "Add a (3 total words)") = Some 3
  /\ getHistory abbrev_sample 20 repo_mixed
     = (Ok [mkInfo (js "a1b2c31 Add a (3 total words)" ++ [10%N]
                    ++ js "a1b2c30 Initial commit: Writer project setup")
              [] None], repo_mixed).
Proof.
  split; [vm_compute; reflexivity|]. split; [vm_compute; reflexivity|].
  destruct (getHistory_has_no_message abbrev_sample 20 repo_mixed 1%nat
              (mkCommit (js "Add a (3 total words)") tree_one (Some O)))
    as (records & E & _);
    [apply abbrev_sample_hex
    | repeat constructor; vm_compute; repeat constructor; discriminate
    | vm_compute; reflexivity | vm_compute; reflexivity |].
  rewrite E. f_equal.
  assert (E' : fst (getHistory abbrev_sample 20 repo_mixed)
               = Ok [mkInfo (js "a1b2c31 Add a (3 total words)" ++ [10%N]
                             ++ js "a1b2c30 Initial commit: Writer project setup")
                       [] None])
    by (vm_compute; reflexivity).
  rewrite E in E'. exact E'.
Defined.

(** X23.  The field separator cuts the subject.  The loop of
    [getWordCountHistory] takes as message the third field of the log
    line, so a [|] in a commit subject ends what is decoded: the entry's
    word count is read from the text before that [|] only, and a count
    that is encoded after it is not seen. *)
Theorem subject_cut_at_separator hash date message rest :
  Forall (fun c => c <> 124%N) hash ->
  Forall (fun c => c <> 124%N) date ->
  Forall (fun c => c <> 124%N) message ->
  let line := hash ++ 124%N :: date ++ 124%N :: message ++ 124%N :: rest in
  getWordCountHistory [line]
  = Ok [mkEntry (hd [] (split_chr 32 date))
          (count_or_zero (extractWordCountFromMessage message))
          (count_or_zero (extractWordCountFromMessage message))].
Proof.
  intros Hh Hd Hm line. unfold getWordCountHistory. cbn [rev app].
  rewrite history_loop_entries.
  - cbn [app entries_after]. unfold line_day, line_count, line.
    rewrite line_fields_cut by assumption.
    now rewrite Z.sub_0_r.
  - constructor; [|constructor]. unfold line.
    rewrite line_fields_cut by assumption. eauto.
Qed.

Lemma subject_cut_at_separator_witness :
  getWordCountHistory [log_line_with_bar]
  = Ok [mkEntry (js "2025-01-01") 0 0]
  /\ extractWordCountFromMessage (js "Part one | draft (500 total words)")
     = Some 500.
Proof.
  split; [|vm_compute; reflexivity].
  apply (subject_cut_at_separator (js "a1") (js "2025-01-01 09:00:00 +0000")
           (js "Part one ") (js " draft (500 total words)"));
    repeat constructor; discriminate.
Defined.
